(** * JOMOO remote-control protocol decoder ([pd.py])

    A shallow embedding of the libsigrokdecode protocol decoder [jomoo_rc]
    and the verification of its specification.

    Packet format: preamble (4 ms low + 8 ms high), start byte 0x4C,
    four data bytes, one checksum byte; logic 0 is 0.64 ms low + 0.48 ms
    high, logic 1 is 0.64 ms low + 1.44 ms high, bytes are MSB first.

    Python [float] is IEEE 754 binary64: durations are primitive floats,
    so every evaluation below is bit-exact.  Python [int] is [Z]. *)

From Stdlib Require Import ZArith List String Ascii Bool Lia Floats DecimalString.
Import ListNotations.

Set Warnings "-inexact-float".
Open Scope Z_scope.

(** ** Module constants *)

Definition LOG_DEBUG : Z := 0.

Definition TIME_TOL : Z := 10.
Definition TIME_PREAMBLE_LOW_MS : Z := 4.
Definition TIME_PREAMBLE_HIGH_MS : Z := 8.
Definition TIME_LOGIC_LOW : float := 0.64%float.
Definition TIME_ONE_HIGH : float := 1.44%float.
Definition TIME_ZERO_HIGH : float := 0.48%float.

Definition START_CODE : Z := 76.   (* 0x4C *)

Inductive Status : Type := IDLE | PREAMBLE | START | DATA | SUM.

Inductive exn : Type :=
| SamplerateError
| AttributeError
| TypeError
| ValueError
| OverflowError
| ZeroDivisionError
| UnboundLocalError.

(** Annotation index, [class Ann]. *)
Module Ann.

Inductive t : Type :=
| BIT | PREAMBLE | START | DATA | STOP | ID | FUNCTION | ARGS | SUM
| INVALID | DEBUG.

Definition index (a : t) : Z :=
  match a with
  | BIT => 0 | PREAMBLE => 1 | START => 2 | DATA => 3 | STOP => 4
  | ID => 5 | FUNCTION => 6 | ARGS => 7 | SUM => 8 | INVALID => 9
  | DEBUG => 10
  end.

End Ann.

(** [annotation_rows]: the display row an annotation class belongs to. *)
Inductive Row : Type := bits | packet | datas_row | errors | debugs.

Definition annotation_rows : list (Row * list Z) :=
  [ (bits, [0]); (packet, [1; 2; 3]); (datas_row, [6; 7; 8]);
    (errors, [9]); (debugs, [10]) ].

Definition row_of (a : Ann.t) : option Row :=
  option_map fst
    (find (fun r => existsb (Z.eqb (Ann.index a)) (snd r)) annotation_rows).

(** ** Python values

    A decoded byte is either a [bytes] object or the integer [-1]. *)
Inductive pyobj : Type :=
| Bytes (b : list Z)
| Int (n : Z).

(** [v != -1] *)
Definition ne_minus1 (v : pyobj) : bool :=
  match v with
  | Bytes _ => true
  | Int n => negb (n =? -1)
  end.

(** Truth value of an integer, as in [if value:]. *)
Definition truthy (n : Z) : bool := negb (n =? 0).

(** [float(n)], exact below 2^53. *)
Definition float_of_int (z : Z) : float :=
  if z <? 0 then PrimFloat.opp (PrimFloat.of_uint63 (Uint63.of_Z (- z)))
  else PrimFloat.of_uint63 (Uint63.of_Z z).

(** [int.from_bytes(v, 'big')]; an [int] argument is not bytes-like. *)
Definition from_bytes_big (b : list Z) : Z :=
  fold_left (fun acc x => acc * 256 + x) b 0.

Definition int_from_bytes (v : pyobj) : exn + Z :=
  match v with
  | Bytes b => inr (from_bytes_big b)
  | Int _ => inl TypeError
  end.

(** [n.to_bytes(len, 'big')] *)
Fixpoint to_bytes_rev (len : nat) (n : Z) : list Z :=
  match len with
  | O => []
  | S len' => n mod 256 :: to_bytes_rev len' (n / 256)
  end.

Definition int_to_bytes (n : Z) (len : nat) : exn + list Z :=
  if (n <? 0) || (256 ^ Z.of_nat len <=? n) then inl OverflowError
  else inr (rev (to_bytes_rev len n)).

(** [b''.join(l)] *)
Fixpoint bytes_join (l : list pyobj) : exn + list Z :=
  match l with
  | [] => inr []
  | Bytes b :: l' =>
      match bytes_join l' with
      | inr r => inr (b ++ r)
      | inl e => inl e
      end
  | Int _ :: _ => inl TypeError
  end.

(** [bytes([n])] *)
Definition bytes_of_int (n : Z) : exn + pyobj :=
  if (0 <=? n) && (n <? 256) then inr (Bytes [n]) else inl ValueError.

(** [b.hex().upper()] *)
Definition hex_digit (n : Z) : ascii :=
  nth (Z.to_nat n)
    ["0"; "1"; "2"; "3"; "4"; "5"; "6"; "7"; "8"; "9";
     "A"; "B"; "C"; "D"; "E"; "F"]%char "?"%char.

Definition hex_upper (b : list Z) : string :=
  fold_right
    (fun x s => String (hex_digit (x / 16)) (String (hex_digit (x mod 16)) s))
    EmptyString b.

Definition pyobj_hex (v : pyobj) : exn + string :=
  match v with
  | Bytes b => inr (hex_upper b)
  | Int _ => inl AttributeError
  end.

(** [str(n)] *)
Definition str (n : Z) : string := NilZero.string_of_int (Z.to_int n).

(** [int(s, 2)] on a string of binary digits, which is what
    [logic_to_byte] builds. *)
Fixpoint int_base2_acc (s : string) (acc : Z) : exn + Z :=
  match s with
  | EmptyString => inr acc
  | String c s' =>
      if Ascii.eqb c "0" then int_base2_acc s' (2 * acc)
      else if Ascii.eqb c "1" then int_base2_acc s' (2 * acc + 1)
      else inl ValueError
  end.

Definition int_base2 (s : string) : exn + Z :=
  match s with
  | EmptyString => inl ValueError
  | _ => int_base2_acc s 0
  end.

(** ** Annotations

    The display strings the decoder hands to [put].  The two [format]
    calls with a float argument keep their arguments instead of the
    rendered text. *)
Inductive text : Type :=
| Str (s : string)
| FmtMs (t : float)                                    (* '{}ms' *)
| FmtStat (result_str : string) (fail_num total : Z) (rate : float).

Record annotation : Type := {
  a_ss : Z;            (* start sample *)
  a_es : Z;            (* end sample *)
  a_cls : Ann.t;
  a_text : list text
}.

Definition span : Type := (Z * Z)%type.

(** ** The edge source

    Modelled from the spec: [wait] of the host library (the Edge Source
    Adapter) is not part of the repository.  The monitored channel is a
    list of samples; [wait cond] advances to the next sample that
    satisfies the condition (falling edge, rising edge, level low, level
    high), returns its sample index, and the following call resumes on
    the sample after it.  With no sample left, [wait] does not return. *)
Inductive cond : Type := Falling | Rising | Low | High.

Record source : Type := {
  pos : Z;                 (* index of the next sample *)
  old : option bool;       (* level of the previous sample *)
  rest : list bool         (* the samples not yet read *)
}.

Definition cond_match (c : cond) (prev : option bool) (cur : bool) : bool :=
  match c with
  | Low => negb cur
  | High => cur
  | Falling => match prev with Some true => negb cur | _ => false end
  | Rising => match prev with Some false => cur | _ => false end
  end.

Fixpoint scan (c : cond) (prev : option bool) (p : Z) (l : list bool)
  : option (Z * source) :=
  match l with
  | [] => None
  | x :: l' =>
      if cond_match c prev x
      then Some (p, {| pos := p + 1; old := Some x; rest := l' |})
      else scan c (Some x) (p + 1) l'
  end.

Definition source_wait (c : cond) (s : source) : option (Z * source) :=
  scan c (old s) (pos s) (rest s).

(** ** Decoder state: the instance attributes, the host's input and the
    annotations put so far. *)
Record Decoder : Type := {
  state : Status;
  ss : Z;
  es : Z;
  datas : list pyobj;
  start_code : pyobj;
  checksum_invalid : bool;
  datas_anchors : list span;
  total : Z;
  pass_num : Z;
  fail_num : Z;
  is_statistic : bool;
  samplerate : option Z;       (* set by [metadata]; None: never set *)
  samplenum : Z;
  interval_ms : float;
  target_data : Z;             (* options['target_data'] *)
  src : source;
  out : list annotation
}.

Definition set_state v d := {| state := v; ss := ss d; es := es d; datas := datas d; start_code := start_code d; checksum_invalid := checksum_invalid d; datas_anchors := datas_anchors d; total := total d; pass_num := pass_num d; fail_num := fail_num d; is_statistic := is_statistic d; samplerate := samplerate d; samplenum := samplenum d; interval_ms := interval_ms d; target_data := target_data d; src := src d; out := out d |}.
Definition set_ss v d := {| state := state d; ss := v; es := es d; datas := datas d; start_code := start_code d; checksum_invalid := checksum_invalid d; datas_anchors := datas_anchors d; total := total d; pass_num := pass_num d; fail_num := fail_num d; is_statistic := is_statistic d; samplerate := samplerate d; samplenum := samplenum d; interval_ms := interval_ms d; target_data := target_data d; src := src d; out := out d |}.
Definition set_es v d := {| state := state d; ss := ss d; es := v; datas := datas d; start_code := start_code d; checksum_invalid := checksum_invalid d; datas_anchors := datas_anchors d; total := total d; pass_num := pass_num d; fail_num := fail_num d; is_statistic := is_statistic d; samplerate := samplerate d; samplenum := samplenum d; interval_ms := interval_ms d; target_data := target_data d; src := src d; out := out d |}.
Definition set_datas v d := {| state := state d; ss := ss d; es := es d; datas := v; start_code := start_code d; checksum_invalid := checksum_invalid d; datas_anchors := datas_anchors d; total := total d; pass_num := pass_num d; fail_num := fail_num d; is_statistic := is_statistic d; samplerate := samplerate d; samplenum := samplenum d; interval_ms := interval_ms d; target_data := target_data d; src := src d; out := out d |}.
Definition set_start_code v d := {| state := state d; ss := ss d; es := es d; datas := datas d; start_code := v; checksum_invalid := checksum_invalid d; datas_anchors := datas_anchors d; total := total d; pass_num := pass_num d; fail_num := fail_num d; is_statistic := is_statistic d; samplerate := samplerate d; samplenum := samplenum d; interval_ms := interval_ms d; target_data := target_data d; src := src d; out := out d |}.
Definition set_checksum_invalid v d := {| state := state d; ss := ss d; es := es d; datas := datas d; start_code := start_code d; checksum_invalid := v; datas_anchors := datas_anchors d; total := total d; pass_num := pass_num d; fail_num := fail_num d; is_statistic := is_statistic d; samplerate := samplerate d; samplenum := samplenum d; interval_ms := interval_ms d; target_data := target_data d; src := src d; out := out d |}.
Definition set_datas_anchors v d := {| state := state d; ss := ss d; es := es d; datas := datas d; start_code := start_code d; checksum_invalid := checksum_invalid d; datas_anchors := v; total := total d; pass_num := pass_num d; fail_num := fail_num d; is_statistic := is_statistic d; samplerate := samplerate d; samplenum := samplenum d; interval_ms := interval_ms d; target_data := target_data d; src := src d; out := out d |}.
Definition set_total v d := {| state := state d; ss := ss d; es := es d; datas := datas d; start_code := start_code d; checksum_invalid := checksum_invalid d; datas_anchors := datas_anchors d; total := v; pass_num := pass_num d; fail_num := fail_num d; is_statistic := is_statistic d; samplerate := samplerate d; samplenum := samplenum d; interval_ms := interval_ms d; target_data := target_data d; src := src d; out := out d |}.
Definition set_pass_num v d := {| state := state d; ss := ss d; es := es d; datas := datas d; start_code := start_code d; checksum_invalid := checksum_invalid d; datas_anchors := datas_anchors d; total := total d; pass_num := v; fail_num := fail_num d; is_statistic := is_statistic d; samplerate := samplerate d; samplenum := samplenum d; interval_ms := interval_ms d; target_data := target_data d; src := src d; out := out d |}.
Definition set_fail_num v d := {| state := state d; ss := ss d; es := es d; datas := datas d; start_code := start_code d; checksum_invalid := checksum_invalid d; datas_anchors := datas_anchors d; total := total d; pass_num := pass_num d; fail_num := v; is_statistic := is_statistic d; samplerate := samplerate d; samplenum := samplenum d; interval_ms := interval_ms d; target_data := target_data d; src := src d; out := out d |}.
Definition set_is_statistic v d := {| state := state d; ss := ss d; es := es d; datas := datas d; start_code := start_code d; checksum_invalid := checksum_invalid d; datas_anchors := datas_anchors d; total := total d; pass_num := pass_num d; fail_num := fail_num d; is_statistic := v; samplerate := samplerate d; samplenum := samplenum d; interval_ms := interval_ms d; target_data := target_data d; src := src d; out := out d |}.
Definition set_samplenum v d := {| state := state d; ss := ss d; es := es d; datas := datas d; start_code := start_code d; checksum_invalid := checksum_invalid d; datas_anchors := datas_anchors d; total := total d; pass_num := pass_num d; fail_num := fail_num d; is_statistic := is_statistic d; samplerate := samplerate d; samplenum := v; interval_ms := interval_ms d; target_data := target_data d; src := src d; out := out d |}.
Definition set_interval_ms v d := {| state := state d; ss := ss d; es := es d; datas := datas d; start_code := start_code d; checksum_invalid := checksum_invalid d; datas_anchors := datas_anchors d; total := total d; pass_num := pass_num d; fail_num := fail_num d; is_statistic := is_statistic d; samplerate := samplerate d; samplenum := samplenum d; interval_ms := v; target_data := target_data d; src := src d; out := out d |}.
Definition set_src v d := {| state := state d; ss := ss d; es := es d; datas := datas d; start_code := start_code d; checksum_invalid := checksum_invalid d; datas_anchors := datas_anchors d; total := total d; pass_num := pass_num d; fail_num := fail_num d; is_statistic := is_statistic d; samplerate := samplerate d; samplenum := samplenum d; interval_ms := interval_ms d; target_data := target_data d; src := v; out := out d |}.
Definition set_out v d := {| state := state d; ss := ss d; es := es d; datas := datas d; start_code := start_code d; checksum_invalid := checksum_invalid d; datas_anchors := datas_anchors d; total := total d; pass_num := pass_num d; fail_num := fail_num d; is_statistic := is_statistic d; samplerate := samplerate d; samplenum := samplenum d; interval_ms := interval_ms d; target_data := target_data d; src := src d; out := v |}.

(** ** The decoder monad: state, end of input, exceptions *)
Inductive outcome (A : Type) : Type :=
| Ret (a : A) (d : Decoder)         (* returned [a] *)
| Eoi (d : Decoder)                 (* [wait] ran out of samples *)
| Exc (e : exn) (d : Decoder).      (* raised [e] *)
Arguments Ret {A} a d.
Arguments Eoi {A} d.
Arguments Exc {A} e d.

Definition M (A : Type) : Type := Decoder -> outcome A.

Definition ret {A} (a : A) : M A := fun d => Ret a d.

Definition bind {A B} (m : M A) (k : A -> M B) : M B :=
  fun d =>
    match m d with
    | Ret a d' => k a d'
    | Eoi d' => Eoi d'
    | Exc e d' => Exc e d'
    end.

Definition gets {A} (f : Decoder -> A) : M A := fun d => Ret (f d) d.
Definition modify (f : Decoder -> Decoder) : M unit := fun d => Ret tt (f d).
Definition raise {A} (e : exn) : M A := fun d => Exc e d.

Definition lift {A} (r : exn + A) : M A :=
  match r with
  | inr a => ret a
  | inl e => raise e
  end.

(** Reading a local variable that may not have been assigned. *)
Definition local {A} (x : option A) : M A :=
  match x with
  | Some a => ret a
  | None => raise UnboundLocalError
  end.

Declare Scope dec_scope.
Delimit Scope dec_scope with dec.
Notation "x <- m ;; k" := (bind m (fun x => k))
  (at level 61, m at next level, right associativity) : dec_scope.
Notation "' p <- m ;; k" := (bind m (fun p => k))
  (at level 61, p pattern, m at next level, right associativity) : dec_scope.
Notation "m ;; k" := (bind m (fun _ => k))
  (at level 61, right associativity) : dec_scope.
Open Scope dec_scope.

(** [for i in l: s = body(i, s)] *)
Fixpoint for_each {S} (l : list Z) (body : Z -> S -> M S) (s : S) : M S :=
  match l with
  | [] => ret s
  | i :: l' => s' <- body i s ;; for_each l' body s'
  end.

Definition range (n : nat) : list Z := map Z.of_nat (seq 0 n).

(** [self.wait({0: c})]: sets [self.samplenum]. *)
Definition wait (c : cond) : M unit :=
  fun d =>
    match source_wait c (src d) with
    | Some (n, s) => Ret tt (set_src s (set_samplenum n d))
    | None => Eoi d
    end.

(** [self.put(ss, es, self.out_ann, data)] *)
Definition put (s e : Z) (data : Ann.t * list text) : M unit :=
  modify (fun d =>
    set_out (out d ++ [{| a_ss := s; a_es := e;
                          a_cls := fst data; a_text := snd data |}]) d).

(** ** The decoder's methods *)

(** [reset]: called by [__init__]. *)
Definition reset (d : Decoder) : Decoder :=
  set_is_statistic false
    (set_fail_num 0
      (set_pass_num 0
        (set_total 0
          (set_datas_anchors []
            (set_checksum_invalid false
              (set_start_code (Int 0)
                (set_datas []
                  (set_es 0
                    (set_ss 0
                      (set_state IDLE d)))))))))).

Definition put_debug (data : Ann.t * list text) : M unit :=
  if truthy LOG_DEBUG then
    s <- gets ss ;; e <- gets es ;;
    put s e data ;;
    e <- gets es ;; modify (set_ss e)
  else ret tt.

Definition put_label (anchor : span) (data : Ann.t * list text) : M unit :=
  put (fst anchor) (snd anchor) data ;;
  e <- gets es ;; modify (set_ss e).

Definition calc_pluse_time (start end_ : Z) : M float :=
  i <- gets interval_ms ;;
  ret (float_of_int (end_ - start) * i)%float.

Definition check_pluse_time (measuretime target_time tol : float) : bool :=
  ((target_time * (1 - tol / 100) <=? measuretime)
   && (measuretime <=? target_time * (1 + tol / 100)))%float.

(** The default argument [tol=TIME_TOL]. *)
Definition check_pluse_time_dflt (measuretime target_time : float) : bool :=
  check_pluse_time measuretime target_time (float_of_int TIME_TOL).

Definition is_preamble : M (Z * span) :=
  (* find low pluse for preamble *)
  wait Falling ;;
  n <- gets samplenum ;; modify (set_ss n) ;;
  label_start <- gets ss ;;
  wait Rising ;;
  n <- gets samplenum ;; modify (set_es n) ;;
  s <- gets ss ;; e <- gets es ;;
  low_pluse_times <- calc_pluse_time s e ;;
  put_debug (Ann.DEBUG, [FmtMs low_pluse_times]) ;;
  e <- gets es ;; modify (set_ss e) ;;
  (* find high pluse for preamble *)
  wait Falling ;;
  n <- gets samplenum ;; modify (set_es n) ;;
  label_end <- gets es ;;
  s <- gets ss ;; e <- gets es ;;
  high_pluse_times <- calc_pluse_time s e ;;
  put_debug (Ann.DEBUG, [FmtMs high_pluse_times]) ;;
  e <- gets es ;; modify (set_ss e) ;;
  let anchor := (label_start, label_end) in
  (* check preamble *)
  if check_pluse_time_dflt low_pluse_times (float_of_int TIME_PREAMBLE_LOW_MS)
     && check_pluse_time_dflt high_pluse_times
          (float_of_int TIME_PREAMBLE_HIGH_MS)
  then ret (1, anchor)
  else ret (-1, anchor).

Definition read_logic_level : M (Z * span) :=
  (* Low pluse *)
  wait Low ;;
  n <- gets samplenum ;; modify (set_ss n) ;;
  label_start <- gets ss ;;
  wait High ;;
  n <- gets samplenum ;; modify (set_es n) ;;
  s <- gets ss ;; e <- gets es ;;
  low_pluse_times <- calc_pluse_time s e ;;
  put_debug (Ann.DEBUG, [FmtMs low_pluse_times]) ;;
  e <- gets es ;; modify (set_ss e) ;;
  (* High pluse *)
  wait Falling ;;
  n <- gets samplenum ;; modify (set_es n) ;;
  label_end <- gets es ;;
  s <- gets ss ;; e <- gets es ;;
  high_pluse_times <- calc_pluse_time s e ;;
  put_debug (Ann.DEBUG, [FmtMs high_pluse_times]) ;;
  e <- gets es ;; modify (set_ss e) ;;
  let anchor := (label_start, label_end) in
  (* Verify logic level *)
  if check_pluse_time_dflt low_pluse_times TIME_LOGIC_LOW then
    if check_pluse_time_dflt high_pluse_times TIME_ZERO_HIGH then
      ret (0, anchor)
    else if check_pluse_time_dflt high_pluse_times TIME_ONE_HIGH then
      ret (1, anchor)
    else ret (-1, anchor)
  else ret (-1, anchor).

Definition logic_to_byte (logic_data : list Z) (msb : bool) : exn + pyobj :=
  let logic_data := if msb then logic_data else rev logic_data in
  let binary_str := String.concat "" (map str logic_data) in
  match int_base2 binary_str with
  | inr int_val => bytes_of_int int_val
  | inl e => inl e
  end.

(** The locals of [read_byte] that live across its loop. *)
Record byte_locals : Type := {
  logic_data : list Z;
  label_start : option Z;
  label_end : option Z;
  invalid : bool
}.

Definition read_byte_body (i : Z) (l : byte_locals) : M byte_locals :=
  '(logic_value, anchor) <- read_logic_level ;;
  let label_start' :=
    if i =? 0 then Some (fst anchor) else label_start l in
  let label_end' :=
    if i =? 0 then label_end l
    else if i =? 7 then Some (snd anchor) else label_end l in
  if logic_value =? 1 then
    put_label anchor (Ann.BIT, [Str "1"]) ;;
    ret {| logic_data := logic_data l ++ [1]; label_start := label_start';
           label_end := label_end'; invalid := invalid l |}
  else if logic_value =? 0 then
    put_label anchor (Ann.BIT, [Str "0"]) ;;
    ret {| logic_data := logic_data l ++ [0]; label_start := label_start';
           label_end := label_end'; invalid := invalid l |}
  else
    put_label anchor (Ann.BIT, [Str "Invalid"; Str "I"]) ;;
    ret {| logic_data := logic_data l; label_start := label_start';
           label_end := label_end'; invalid := false |}.

Definition read_byte : M (pyobj * span) :=
  l <- for_each (range 8) read_byte_body
         {| logic_data := []; label_start := None; label_end := None;
            invalid := true |} ;;
  s <- local (label_start l) ;;
  e <- local (label_end l) ;;
  let anchor := (s, e) in
  if invalid l then
    b <- lift (logic_to_byte (logic_data l) true) ;;
    ret (b, anchor)
  else ret (Int (-1), anchor).

Definition check_sum8 (buffer : list pyobj) : Z :=
  let sum :=
    fold_left
      (fun sum byte =>
         match byte with
         | Bytes b => sum + from_bytes_big b
         | Int n => sum + n
         end) buffer 0 in
  Z.land sum 255.

Definition is_start : M bool :=
  '(value, anchor) <- read_byte ;;
  modify (set_start_code value) ;;
  if ne_minus1 value then
    v <- lift (int_from_bytes value) ;;
    if v =? START_CODE then
      h <- lift (pyobj_hex value) ;;
      put_label anchor
        (Ann.START, [Str ("Start (0x" ++ h ++ ")"); Str "Start"; Str "S"]) ;;
      ret true
    else
      put_label anchor (Ann.START, [Str "Invalid"; Str "I"]) ;;
      ret false
  else
    put_label anchor (Ann.START, [Str "Invalid"; Str "I"]) ;;
    ret false.

(** The locals of [decode] that live across iterations of its loop. *)
Record Locals : Type := {
  anchor : option span;
  preable_anchor : option span;
  d_label_start : option Z;
  d_label_end : option Z
}.

Definition no_locals : Locals :=
  {| anchor := None; preable_anchor := None;
     d_label_start := None; d_label_end := None |}.

(** One byte slot of the [for i in range(4)] loop of state START. *)
Definition data_body (i : Z) (l : Locals) : M Locals :=
  '(value, anchor') <- read_byte ;;
  (* Record label *)
  let label_start' :=
    if i =? 0 then Some (fst anchor') else d_label_start l in
  let label_end' :=
    if i =? 0 then d_label_end l
    else if i =? 3 then Some (snd anchor') else d_label_end l in
  (if ne_minus1 value then
     ds <- gets datas ;; modify (set_datas (ds ++ [value])) ;;
     az <- gets datas_anchors ;;
     modify (set_datas_anchors (az ++ [anchor'])) ;;
     h <- lift (pyobj_hex value) ;;
     if i =? 0 then put_label anchor' (Ann.FUNCTION, [Str ("0x" ++ h)])
     else put_label anchor' (Ann.ARGS, [Str ("0x" ++ h)])
   else ret tt) ;;
  ret {| anchor := Some anchor'; preable_anchor := preable_anchor l;
         d_label_start := label_start'; d_label_end := label_end' |}.

(** One iteration of [while True] in [decode]. *)
Definition decode_step (l : Locals) : M Locals :=
  st <- gets state ;;
  match st with
  | IDLE =>
      (* Find preamble *)
      '(value, anchor') <- is_preamble ;;
      (if truthy value
       then put_label anchor' (Ann.PREAMBLE, [Str "Preamble"; Str "P"])
       else put_label anchor' (Ann.PREAMBLE, [Str "Invalid"; Str "I"])) ;;
      modify (set_state PREAMBLE) ;;
      ret {| anchor := Some anchor'; preable_anchor := Some anchor';
             d_label_start := d_label_start l;
             d_label_end := d_label_end l |}
  | PREAMBLE =>
      (* Find start code *)
      is_start ;;
      modify (set_state START) ;;
      ret l
  | START =>
      (* Read data *)
      modify (set_datas []) ;;
      modify (set_datas_anchors []) ;;
      l' <- for_each (range 4) data_body l ;;
      s <- local (d_label_start l') ;;
      e <- local (d_label_end l') ;;
      put_label (s, e) (Ann.DATA, [Str "Data[0-3]"; Str "D"]) ;;
      modify (set_state DATA) ;;
      ret l'
  | DATA =>
      (* CheckSum *)
      '(value, anchor') <- read_byte ;;
      (if ne_minus1 value then
         ds <- gets datas ;;
         v <- lift (int_from_bytes value) ;;
         modify (set_checksum_invalid (check_sum8 ds =? v)) ;;
         ci <- gets checksum_invalid ;;
         if ci then
           h <- lift (pyobj_hex value) ;;
           put_label anchor' (Ann.DATA, [Str ("CHECKSUM 0x" ++ h)])
         else
           put_label anchor'
             (Ann.DATA, [Str "CHECKSUM Invalid"; Str "Invalid"; Str "I"])
       else ret tt) ;;
      modify (set_state SUM) ;;
      ret {| anchor := Some anchor'; preable_anchor := preable_anchor l;
             d_label_start := d_label_start l;
             d_label_end := d_label_end l |}
  | SUM =>
      (* End of packet *)
      wait Rising ;;
      n <- gets samplenum ;; modify (set_es n) ;;
      t <- gets total ;; modify (set_total (t + 1)) ;;
      (* statistics *)
      st <- gets is_statistic ;;
      (if st then
         ds <- gets datas ;;
         read_bytes <- lift (bytes_join ds) ;;
         td <- gets target_data ;;
         target_bytes <- lift (int_to_bytes td 4) ;;
         ci <- gets checksum_invalid ;;
         sc <- gets start_code ;;
         (* read_bytes == target_bytes and checksum_invalid and
            int.from_bytes(start_code, 'big') == START_CODE *)
         c <- (if list_eq_dec Z.eq_dec read_bytes target_bytes then
                 if ci then
                   v <- lift (int_from_bytes sc) ;; ret (v =? START_CODE)
                 else ret false
               else ret false) ;;
         result_str <-
           (if c : bool then
              p <- gets pass_num ;; modify (set_pass_num (p + 1)) ;;
              ret "PASS"%string
            else
              f <- gets fail_num ;; modify (set_fail_num (f + 1)) ;;
              ret "FAIL"%string) ;;
         p <- gets pass_num ;; t <- gets total ;;
         rate <- (if t =? 0 then raise ZeroDivisionError
                  else ret (float_of_int p / float_of_int t * 100)%float) ;;
         pa <- local (preable_anchor l) ;;
         a <- local (anchor l) ;;
         f <- gets fail_num ;;
         put_label (fst pa, snd a) (Ann.DEBUG, [FmtStat result_str f t rate])
       else ret tt) ;;
      modify (set_state IDLE) ;;
      ret l
  end.

(** [n] iterations of the loop. *)
Fixpoint decode_loop (n : nat) (l : Locals) : M Locals :=
  match n with
  | O => ret l
  | S n' => l' <- decode_step l ;; decode_loop n' l'
  end.

(** The code of [decode] before its loop. *)
Definition decode_init : M unit :=
  sr <- gets samplerate ;;
  match sr with
  | None => raise AttributeError
  | Some r =>
      if negb (truthy r) then raise SamplerateError
      else
        modify (set_interval_ms (float_of_int 1000 / float_of_int r)%float) ;;
        td <- gets target_data ;;
        modify (set_is_statistic (if td =? 0 then false else true))
  end.

(** [decode]: every iteration of the loop reads at least one sample, so
    one more iteration than there are samples never comes back (see
    [decode_never_returns]). *)
Definition decode : M Locals :=
  decode_init ;;
  n <- gets (fun d => S (List.length (rest (src d)))) ;;
  decode_loop n no_locals.

(** A decoder as the host creates it: [__init__], then [metadata] when
    the sample rate is known, the option [target_data], and the samples
    of the channel. *)
Definition new_decoder (rate : option Z) (target : Z) (samples : list bool)
  : Decoder :=
  reset
    {| state := IDLE; ss := 0; es := 0; datas := []; start_code := Int 0;
       checksum_invalid := false; datas_anchors := []; total := 0;
       pass_num := 0; fail_num := 0; is_statistic := false;
       samplerate := rate; samplenum := 0; interval_ms := 0%float;
       target_data := target;
       src := {| pos := 0; old := None; rest := samples |};
       out := [] |}.

(** ** Test waveforms

    Signals sampled at 25 kHz (0.04 ms per sample): a preamble is 100
    low and 200 high samples, a bit is 16 low samples followed by 12
    (logic 0) or 36 (logic 1) high samples. *)
Definition pulse (low high : nat) : list bool :=
  repeat false low ++ repeat true high.

Definition bit_wave (b : bool) : list bool :=
  pulse 16 (if b then 36 else 12).

(** The eight bits of a byte, most significant first. *)
Definition bits_of_byte (n : Z) : list bool :=
  map (fun i => Z.testbit n (Z.of_nat i)) (rev (seq 0 8)).

Definition byte_wave (n : Z) : list bool :=
  flat_map bit_wave (bits_of_byte n).

(** A packet: idle high, preamble, the given symbol waves, then the
    line low for 16 samples and back to idle high. *)
Definition packet_wave (preamble : list bool) (bytes : list (list bool))
  : list bool :=
  [true; true] ++ preamble ++ List.concat bytes ++ repeat false 16 ++ [true; true].

Definition good_preamble : list bool := pulse 100 200.

(** Start 0x4C, payload 01 02 03 04, checksum 0x0A. *)
Definition good_packet : list bool :=
  packet_wave good_preamble (map byte_wave [76; 1; 2; 3; 4; 10]).

(** What is of interest in the state after a run. *)
Definition outcome_state {A} (o : outcome A) : Decoder :=
  match o with
  | Ret _ d | Eoi d | Exc _ d => d
  end.

Definition labels (d : Decoder) : list (Z * Z * Z * list text) :=
  map (fun a => (a_ss a, a_es a, Ann.index (a_cls a), a_text a)) (out d).

(** * Verification *)

(** ** The order of binary64 values

    [<=?] and [<?] on primitive floats are specified by [SFcompare] on
    their decoded form; the facts below are the part of the order the
    timing windows need. *)

Lemma SFcompare_refl x : SFcompare x x = None \/ SFcompare x x = Some Eq.
Proof.
  destruct x as [s| s | |s m e]; simpl; auto.
  - destruct s; auto.
  - right. destruct s; rewrite Z.compare_refl, Pos.compare_cont_refl;
      reflexivity.
Qed.

Lemma SFcompare_antisym x y c :
  SFcompare x y = Some c -> SFcompare y x = Some (CompOpp c).
Proof.
  destruct x as [s1| s1 | |s1 m1 e1], y as [s2|s2| |s2 m2 e2]; simpl;
    try discriminate;
    try (destruct s1); try (destruct s2); simpl;
    intros H; inversion H; clear H; subst; try reflexivity;
    rewrite (Z.compare_antisym e1 e2);
    destruct (e1 ?= e2); simpl; try reflexivity;
    rewrite (Pos.compare_cont_antisym m1 m2 Eq); simpl;
    try rewrite CompOpp_involutive; reflexivity.
Qed.

Lemma SFleb_trans x y z :
  SFleb x y = true -> SFleb y z = true -> SFleb x z = true.
Proof.
  unfold SFleb.
  destruct x as [s1| s1 | |s1 m1 e1], y as [s2|s2| |s2 m2 e2],
    z as [s3|s3| |s3 m3 e3]; simpl;
    try discriminate; try reflexivity;
    try (destruct s1); try (destruct s2); try (destruct s3); simpl;
    try discriminate; try reflexivity;
    change (PosDef.Pos.compare_cont Eq) with Pos.compare;
    destruct (Z.compare_spec e1 e2); simpl; try discriminate;
    destruct (Z.compare_spec e2 e3); simpl; try discriminate;
    destruct (Z.compare_spec e1 e3); simpl; try reflexivity; try lia;
    repeat match goal with
    | |- context [(?a ?= ?b)%positive] =>
        destruct (Pos.compare_spec a b); simpl; try discriminate
    end; intros; try reflexivity; try lia; try discriminate.
Qed.

Lemma float_leb_trans (x y z : float) :
  (x <=? y)%float = true -> (y <=? z)%float = true -> (x <=? z)%float = true.
Proof. rewrite !FloatAxioms.leb_spec. apply SFleb_trans. Qed.

Lemma float_ltb_not_leb (x y : float) :
  (x <? y)%float = true -> (y <=? x)%float = false.
Proof.
  rewrite FloatAxioms.ltb_spec, FloatAxioms.leb_spec. unfold SFltb, SFleb.
  destruct (SFcompare (Prim2SF x) (Prim2SF y)) as [c|] eqn:E;
    try discriminate.
  rewrite (SFcompare_antisym _ _ _ E). destruct c; simpl; congruence.
Qed.

(** A value that is below something is not NaN, so it is below itself. *)
Lemma float_leb_refl_l (x y : float) :
  (x <=? y)%float = true -> (x <=? x)%float = true.
Proof.
  rewrite !FloatAxioms.leb_spec. unfold SFleb.
  destruct (SFcompare_refl (Prim2SF x)) as [H|H]; rewrite H; auto.
  destruct (Prim2SF x), (Prim2SF y); simpl in *; try discriminate; auto.
Qed.

Lemma float_leb_refl_r (x y : float) :
  (x <=? y)%float = true -> (y <=? y)%float = true.
Proof.
  rewrite !FloatAxioms.leb_spec. unfold SFleb.
  destruct (SFcompare_refl (Prim2SF y)) as [H|H]; rewrite H; auto.
  destruct (Prim2SF x), (Prim2SF y); simpl in *; try discriminate; auto.
Qed.

(** ** The timing classifier *)

Lemma default_tolerance :
  float_of_int TIME_TOL = 10%float
  /\ (1 - float_of_int TIME_TOL / 100 = 0.9)%float
  /\ (1 + float_of_int TIME_TOL / 100 = 1.1)%float.
Proof. repeat split; reflexivity. Qed.

Lemma check_pluse_time_iff (m n t : float) :
  check_pluse_time m n t = true <->
  (n * (1 - t / 100) <=? m)%float = true
  /\ (m <=? n * (1 + t / 100))%float = true.
Proof. unfold check_pluse_time. apply andb_true_iff. Qed.

Lemma check_pluse_time_dflt_iff (m n : float) :
  check_pluse_time_dflt m n = true <->
  (n * 0.9 <=? m)%float = true /\ (m <=? n * 1.1)%float = true.
Proof. apply check_pluse_time_iff. Qed.

(** The nominal durations the decoder classifies against. *)
Definition nominal_times : list float :=
  [float_of_int TIME_PREAMBLE_LOW_MS; float_of_int TIME_PREAMBLE_HIGH_MS;
   TIME_LOGIC_LOW; TIME_ZERO_HIGH; TIME_ONE_HIGH].

(** C10.  The classifier accepts [m] exactly when
    [n*(1 - t/100) <= m <= n*(1 + t/100)] in binary64 arithmetic, both
    comparisons inclusive.  With the default tolerance the factors are
    0.9 and 1.1; whenever that window is not empty (as it is for every
    nominal duration of the decoder) its two end points [n*0.9] and
    [n*1.1] are accepted, and every [m] strictly below [n*0.9] or
    strictly above [n*1.1] is rejected. *)
Theorem check_pluse_time_window :
  forall m n t : float,
    (check_pluse_time m n t = true <->
       (n * (1 - t / 100) <=? m)%float = true
       /\ (m <=? n * (1 + t / 100))%float = true)
    /\ check_pluse_time_dflt m n = check_pluse_time m n 10
    /\ (check_pluse_time_dflt m n = true <->
          (n * 0.9 <=? m)%float = true /\ (m <=? n * 1.1)%float = true)
    /\ ((n * 0.9 <=? n * 1.1)%float = true ->
          check_pluse_time_dflt (n * 0.9) n = true
          /\ check_pluse_time_dflt (n * 1.1) n = true)
    /\ ((m <? n * 0.9)%float = true \/ (n * 1.1 <? m)%float = true ->
          check_pluse_time_dflt m n = false)
    /\ Forall (fun n0 => (n0 * 0.9 <=? n0 * 1.1)%float = true) nominal_times.
Proof.
  intros m n t.
  split; [apply check_pluse_time_iff|].
  split; [reflexivity|].
  split; [apply check_pluse_time_dflt_iff|].
  split; [|split].
  - intros H. split; apply check_pluse_time_dflt_iff; split; auto.
    + eapply float_leb_refl_l; eauto.
    + eapply float_leb_refl_r; eauto.
  - intros H.
    destruct (check_pluse_time_dflt m n) eqn:E; [|reflexivity].
    apply check_pluse_time_dflt_iff in E. destruct E as [E1 E2].
    destruct H as [H|H]; apply float_ltb_not_leb in H; congruence.
  - repeat constructor.
Qed.

(** ** Reading the edge source

    What the decoder's reads amount to on the source alone: the pulse
    pair of one symbol, and the state a read leaves behind. *)

(** The state after a read that ended on sample [n] with the source at
    [s] and the annotations [anns] put. *)
Definition moved (s : source) (n : Z) (d : Decoder) : Decoder :=
  set_src s (set_samplenum n (set_es n (set_ss n d))).

Definition advanced (s : source) (n : Z) (anns : list annotation)
  (d : Decoder) : Decoder :=
  set_out (out d ++ anns) (moved s n d).

Lemma advanced_advanced s1 n1 l1 s2 n2 l2 d :
  advanced s2 n2 l2 (advanced s1 n1 l1 d) = advanced s2 n2 (l1 ++ l2) d.
Proof. unfold advanced; cbn. rewrite app_assoc. reflexivity. Qed.

(** The value [read_logic_level] returns for a low and a high duration. *)
Definition logic_level (low high : float) : Z :=
  if check_pluse_time_dflt low TIME_LOGIC_LOW then
    if check_pluse_time_dflt high TIME_ZERO_HIGH then 0
    else if check_pluse_time_dflt high TIME_ONE_HIGH then 1
    else -1
  else -1.

(** The three edges of a symbol: first low sample, first high sample,
    next falling edge. *)
Definition pulse_pair (s : source) : option (Z * Z * Z * source) :=
  match source_wait Low s with
  | None => None
  | Some (s0, src1) =>
      match source_wait High src1 with
      | None => None
      | Some (s1, src2) =>
          match source_wait Falling src2 with
          | None => None
          | Some (s2, src3) => Some (s0, s1, s2, src3)
          end
      end
  end.

Definition next_symbol (itv : float) (s : source)
  : option (Z * span * source) :=
  match pulse_pair s with
  | None => None
  | Some (s0, s1, s2, s') =>
      Some (logic_level (float_of_int (s1 - s0) * itv)
                        (float_of_int (s2 - s1) * itv), (s0, s2), s')
  end.

Lemma logic_level_cases low high :
  logic_level low high = 0 \/ logic_level low high = 1
  \/ logic_level low high = -1.
Proof.
  unfold logic_level.
  repeat match goal with
         | |- context [if ?c then _ else _] => destruct c
         end; auto.
Qed.

Lemma read_logic_level_run d s0 s1 s2 s' :
  pulse_pair (src d) = Some (s0, s1, s2, s') ->
  read_logic_level d =
  Ret (logic_level (float_of_int (s1 - s0) * interval_ms d)
                   (float_of_int (s2 - s1) * interval_ms d), (s0, s2))
      (moved s' s2 d).
Proof.
  unfold pulse_pair. intros H.
  destruct (source_wait Low (src d)) as [[a src1]|] eqn:H0; [|discriminate].
  destruct (source_wait High src1) as [[b src2]|] eqn:H1; [|discriminate].
  destruct (source_wait Falling src2) as [[c src3]|] eqn:H2; [|discriminate].
  inversion H; subst; clear H.
  unfold read_logic_level, bind, wait, gets, modify, calc_pluse_time,
    put_debug, ret.
  rewrite H0. cbn. rewrite H1. cbn. rewrite H2. cbn.
  unfold logic_level, moved. cbn.
  repeat match goal with
         | |- context [if ?c then _ else _] => destruct c
         end; reflexivity.
Qed.

Lemma read_logic_level_eoi d :
  pulse_pair (src d) = None -> exists d', read_logic_level d = Eoi d'.
Proof.
  unfold pulse_pair. intros H.
  unfold read_logic_level, bind, wait, gets, modify, calc_pluse_time,
    put_debug, ret.
  destruct (source_wait Low (src d)) as [[a src1]|] eqn:H0;
    [|eexists; reflexivity].
  cbn.
  destruct (source_wait High src1) as [[b src2]|] eqn:H1;
    [|eexists; reflexivity].
  cbn.
  destruct (source_wait Falling src2) as [[c src3]|] eqn:H2;
    [discriminate|eexists; reflexivity].
Qed.

(** The windows of logic 0 and logic 1 do not meet. *)
Lemma zero_one_disjoint (high : float) :
  check_pluse_time_dflt high TIME_ZERO_HIGH = true ->
  check_pluse_time_dflt high TIME_ONE_HIGH = true -> False.
Proof.
  intros H0 H1.
  apply check_pluse_time_dflt_iff in H0. destruct H0 as [_ H0].
  apply check_pluse_time_dflt_iff in H1. destruct H1 as [H1 _].
  pose proof (float_leb_trans _ _ _ H1 H0) as H.
  vm_compute in H. discriminate.
Qed.

(** The Bit Decoder in terms of its three waits.  For the samples
    [s0] (where the wait for a low level returns), [s1] (first high
    sample) and [s2] (next falling edge), the Bit Decoder
    returns with the span [(s0, s2)]; its value is -1 when the low
    duration does not match 0.64 ms, and when it matches, 0 if the high
    duration matches 0.48 ms, 1 if it matches 1.44 ms, -1 if neither
    (10% tolerance throughout). *)
Theorem read_logic_level_classifies d s0 s1 s2 src1 src2 src3 :
  source_wait Low (src d) = Some (s0, src1) ->
  source_wait High src1 = Some (s1, src2) ->
  source_wait Falling src2 = Some (s2, src3) ->
  let low := (float_of_int (s1 - s0) * interval_ms d)%float in
  let high := (float_of_int (s2 - s1) * interval_ms d)%float in
  exists v d',
    read_logic_level d = Ret (v, (s0, s2)) d'
    /\ src d' = src3 /\ out d' = out d
    /\ (check_pluse_time_dflt low TIME_LOGIC_LOW = false -> v = -1)
    /\ (check_pluse_time_dflt low TIME_LOGIC_LOW = true ->
        (check_pluse_time_dflt high TIME_ZERO_HIGH = true -> v = 0)
        /\ (check_pluse_time_dflt high TIME_ONE_HIGH = true -> v = 1)
        /\ (check_pluse_time_dflt high TIME_ZERO_HIGH = false ->
            check_pluse_time_dflt high TIME_ONE_HIGH = false -> v = -1)).
Proof.
  intros H0 H1 H2 low high.
  assert (P : pulse_pair (src d) = Some (s0, s1, s2, src3)).
  { unfold pulse_pair. rewrite H0, H1, H2. reflexivity. }
  eexists; eexists. split; [apply (read_logic_level_run _ _ _ _ _ P)|].
  split; [reflexivity|].
  split; [reflexivity|].
  fold low high. unfold logic_level.
  split.
  - intros E. rewrite E. reflexivity.
  - intros E. rewrite E. repeat split.
    + intros Z0. rewrite Z0. reflexivity.
    + intros O1.
      destruct (check_pluse_time_dflt high TIME_ZERO_HIGH) eqn:Z0.
      * exfalso. eapply zero_one_disjoint; eauto.
      * rewrite O1. reflexivity.
    + intros Z0 O1. rewrite Z0, O1. reflexivity.
Qed.

(** The next [n] symbols of the source. *)
Fixpoint next_symbols (n : nat) (itv : float) (s : source)
  : option (list (Z * span) * source) :=
  match n with
  | O => Some ([], s)
  | S n' =>
      match next_symbol itv s with
      | None => None
      | Some (v, a, s1) =>
          match next_symbols n' itv s1 with
          | None => None
          | Some (l, s2) => Some ((v, a) :: l, s2)
          end
      end
  end.

(** The Bit annotation [read_byte] puts for a symbol. *)
Definition bit_annotation (sym : Z * span) : annotation :=
  {| a_ss := fst (snd sym); a_es := snd (snd sym); a_cls := Ann.BIT;
     a_text := if fst sym =? 1 then [Str "1"]
               else if fst sym =? 0 then [Str "0"]
               else [Str "Invalid"; Str "I"] |}.

(** The locals of [read_byte] after the symbol [sym] of slot [i]. *)
Definition byte_locals_step (l : byte_locals) (x : Z * (Z * span))
  : byte_locals :=
  let '(i, (v, a)) := x in
  {| logic_data := if (v =? 1) || (v =? 0) then logic_data l ++ [v]
                   else logic_data l;
     label_start := if i =? 0 then Some (fst a) else label_start l;
     label_end := if i =? 0 then label_end l
                  else if i =? 7 then Some (snd a) else label_end l;
     invalid := if (v =? 1) || (v =? 0) then invalid l else false |}.

Lemma put_label_moved a data s n d :
  put_label a data (moved s n d) =
  Ret tt (advanced s n [{| a_ss := fst a; a_es := snd a;
                           a_cls := fst data; a_text := snd data |}] d).
Proof. cbv. reflexivity. Qed.

Lemma read_byte_body_run i l d v a s' :
  next_symbol (interval_ms d) (src d) = Some (v, a, s') ->
  read_byte_body i l d =
  Ret (byte_locals_step l (i, (v, a)))
      (advanced s' (snd a) [bit_annotation (v, a)] d).
Proof.
  unfold next_symbol. intros H.
  destruct (pulse_pair (src d)) as [[[[s0 s1] s2] s3]|] eqn:P; [|discriminate].
  inversion H; subst; clear H.
  unfold read_byte_body, bind at 1.
  rewrite (read_logic_level_run _ _ _ _ _ P).
  set (v := logic_level _ _).
  unfold byte_locals_step, bit_annotation.
  cbn [fst snd].
  destruct (Z.eqb_spec v 1) as [E1|E1].
  - rewrite E1. unfold bind. rewrite put_label_moved. reflexivity.
  - destruct (Z.eqb_spec v 0) as [E0|E0].
    + rewrite E0. unfold bind. rewrite put_label_moved. reflexivity.
    + unfold bind. rewrite put_label_moved. cbn [orb]. reflexivity.
Qed.

Lemma next_symbols_S n itv s :
  next_symbols (S n) itv s =
  match next_symbol itv s with
  | None => None
  | Some (v, a, s1) =>
      match next_symbols n itv s1 with
      | None => None
      | Some (l, s2) => Some ((v, a) :: l, s2)
      end
  end.
Proof. reflexivity. Qed.

Lemma for_each_cons {S} i l (body : Z -> S -> M S) s d :
  for_each (i :: l) body s d =
  match body i s d with
  | Ret s' d' => for_each l body s' d'
  | Eoi d' => Eoi d'
  | Exc e d' => Exc e d'
  end.
Proof. reflexivity. Qed.

Lemma last_cons {A} (l : list A) (x y : A) : last (x :: l) y = last l x.
Proof.
  revert x y. induction l as [|z l IH]; intros x y; [reflexivity|].
  change (last (x :: z :: l) y) with (last (z :: l) y).
  rewrite (IH z y), (IH z x). reflexivity.
Qed.

Lemma read_byte_loop_run itv :
  forall syms y idxs i l d s',
    interval_ms d = itv ->
    List.length idxs = List.length syms ->
    next_symbols (S (List.length syms)) itv (src d) = Some (y :: syms, s') ->
    for_each (i :: idxs) read_byte_body l d =
    Ret (fold_left byte_locals_step (combine (i :: idxs) (y :: syms)) l)
        (advanced s' (snd (snd (last syms y)))
           (map bit_annotation (y :: syms)) d).
Proof.
  induction syms as [|y' syms IH]; intros y idxs i l d s' Hi Hl Hn.
  - destruct idxs; [|discriminate]. cbn in Hn.
    destruct (next_symbol itv (src d)) as [[[v a] s1]|] eqn:E; [|discriminate].
    inversion Hn; subst; clear Hn.
    rewrite for_each_cons.
    rewrite (read_byte_body_run _ _ _ _ _ _ E). reflexivity.
  - destruct idxs as [|i' idxs]; [discriminate|].
    rewrite next_symbols_S in Hn.
    destruct (next_symbol itv (src d)) as [[[v a] s1]|] eqn:E; [|discriminate].
    destruct (next_symbols (List.length (y' :: syms)) itv s1)
      as [[l2 s2]|] eqn:E2; [|discriminate].
    inversion Hn; subst; clear Hn.
    rewrite for_each_cons.
    rewrite (read_byte_body_run _ _ _ _ _ _ E).
    rewrite (IH y' idxs i' _ _ s'); [| reflexivity | cbn in Hl; lia | exact E2].
    rewrite advanced_advanced, last_cons. reflexivity.
Qed.

(** ** The byte assembler *)

Definition all_bits (vs : list Z) : bool :=
  forallb (fun v => (v =? 1) || (v =? 0)) vs.

Definition pack_msb (vs : list Z) : Z := fold_left (fun acc b => 2 * acc + b) vs 0.

Definition byte_value (vs : list Z) : pyobj :=
  if all_bits vs then Bytes [pack_msb vs] else Int (-1).

Lemma str_0 : str 0 = "0"%string. Proof. reflexivity. Qed.
Lemma str_1 : str 1 = "1"%string. Proof. reflexivity. Qed.

Lemma concat_char c l :
  String.concat "" (String c "" :: l) = String c (String.concat "" l).
Proof. destruct l; reflexivity. Qed.

Lemma int_base2_acc_bits vs : forall acc,
  all_bits vs = true ->
  int_base2_acc (String.concat "" (map str vs)) acc =
  inr (fold_left (fun acc b => 2 * acc + b) vs acc).
Proof.
  induction vs as [|v vs IH]; intros acc H; [reflexivity|].
  cbn [all_bits forallb] in H. apply andb_true_iff in H. destruct H as [Hv H].
  cbn [map fold_left].
  apply orb_true_iff in Hv. destruct Hv as [Hv|Hv]; apply Z.eqb_eq in Hv;
    subst v.
  - rewrite str_1, concat_char. cbn [int_base2_acc]. cbn [Ascii.eqb Bool.eqb].
    apply IH, H.
  - rewrite str_0, concat_char. cbn [int_base2_acc]. cbn [Ascii.eqb Bool.eqb].
    rewrite Z.add_0_r. apply IH, H.
Qed.

Lemma pack_msb_bound vs : forall acc,
  all_bits vs = true -> 0 <= acc ->
  0 <= fold_left (fun acc b => 2 * acc + b) vs acc
    < 2 ^ Z.of_nat (List.length vs) * (acc + 1).
Proof.
  induction vs as [|v vs IH]; intros acc H Hacc.
  - cbn [fold_left List.length]. change (Z.of_nat 0) with 0.
    rewrite Z.pow_0_r. lia.
  - cbn [all_bits forallb] in H. apply andb_true_iff in H.
    destruct H as [Hv H].
    cbn [fold_left List.length]. rewrite Nat2Z.inj_succ, Z.pow_succ_r by lia.
    assert (Hb : v = 0 \/ v = 1).
    { apply orb_true_iff in Hv. destruct Hv as [Hv|Hv];
        apply Z.eqb_eq in Hv; auto. }
    specialize (IH (2 * acc + v) H ltac:(lia)). nia.
Qed.

Lemma logic_to_byte_bits vs :
  all_bits vs = true -> List.length vs = 8%nat ->
  logic_to_byte vs true = inr (Bytes [pack_msb vs]).
Proof.
  intros H L. unfold logic_to_byte, int_base2.
  destruct (String.concat "" (map str vs)) as [|c s] eqn:E.
  - destruct vs as [|v vs]; [discriminate|].
    cbn [all_bits forallb] in H. apply andb_true_iff in H.
    destruct H as [Hv _].
    apply orb_true_iff in Hv. destruct Hv as [Hv|Hv]; apply Z.eqb_eq in Hv;
      subst v; cbn [map] in E.
    + rewrite str_1, concat_char in E. discriminate.
    + rewrite str_0, concat_char in E. discriminate.
  - rewrite <- E, int_base2_acc_bits by assumption.
    pose proof (pack_msb_bound vs 0 H ltac:(lia)) as B. rewrite L in B.
    unfold bytes_of_int, pack_msb.
    change (2 ^ Z.of_nat 8 * (0 + 1)) with 256 in B.
    destruct (Z.leb_spec 0 (fold_left (fun acc b => 2 * acc + b) vs 0));
      [|lia].
    destruct (Z.ltb_spec (fold_left (fun acc b => 2 * acc + b) vs 0) 256);
      [|lia].
    reflexivity.
Qed.

Definition next_byte (itv : float) (s : source)
  : option (pyobj * span * list annotation * source) :=
  match next_symbols 8 itv s with
  | Some (y :: syms, s') =>
      Some (byte_value (map fst (y :: syms)),
            (fst (snd y), snd (snd (last syms y))),
            map bit_annotation (y :: syms), s')
  | _ => None
  end.

Lemma next_symbols_length n itv : forall s l s',
  next_symbols n itv s = Some (l, s') -> List.length l = n.
Proof.
  induction n as [|n IH]; intros s l s' H.
  - inversion H. reflexivity.
  - rewrite next_symbols_S in H.
    destruct (next_symbol itv s) as [[[v a] s1]|]; [|discriminate].
    destruct (next_symbols n itv s1) as [[l2 s2]|] eqn:E; [|discriminate].
    inversion H; subst. cbn. f_equal. eapply IH; eauto.
Qed.

Lemma fold_locals_invalid pairs : forall l,
  invalid (fold_left byte_locals_step pairs l) =
  invalid l && all_bits (map (fun x => fst (snd x)) pairs).
Proof.
  induction pairs as [|[i [v a]] pairs IH]; intros l.
  - cbn. rewrite andb_true_r. reflexivity.
  - cbn [fold_left map all_bits forallb fst snd]. rewrite IH.
    unfold byte_locals_step. cbn [invalid].
    destruct ((v =? 1) || (v =? 0)); cbn.
    + reflexivity.
    + rewrite andb_false_r. reflexivity.
Qed.

Lemma fold_locals_logic_data pairs : forall l,
  all_bits (map (fun x => fst (snd x)) pairs) = true ->
  logic_data (fold_left byte_locals_step pairs l) =
  logic_data l ++ map (fun x => fst (snd x)) pairs.
Proof.
  induction pairs as [|[i [v a]] pairs IH]; intros l H.
  - cbn. rewrite app_nil_r. reflexivity.
  - cbn [all_bits forallb map fst snd] in H. apply andb_true_iff in H.
    destruct H as [Hv H].
    cbn [fold_left map fst snd]. rewrite IH by exact H.
    unfold byte_locals_step. cbn [logic_data]. rewrite Hv.
    rewrite <- app_assoc. reflexivity.
Qed.

Lemma read_byte_run d v a anns s' :
  next_byte (interval_ms d) (src d) = Some (v, a, anns, s') ->
  read_byte d = Ret (v, a) (advanced s' (snd a) anns d).
Proof.
  unfold next_byte. intros H.
  destruct (next_symbols 8 (interval_ms d) (src d)) as [[[|y syms] s2]|] eqn:E;
    try discriminate.
  inversion H; subst; clear H.
  pose proof (next_symbols_length _ _ _ _ _ E) as L.
  unfold read_byte, bind.
  change (range 8) with (0 :: [1; 2; 3; 4; 5; 6; 7]).
  assert (L7 : List.length syms = 7%nat) by (cbn in L; lia).
  rewrite (read_byte_loop_run (interval_ms d) syms y _ 0 _ d s' eq_refl);
    [ | rewrite L7; reflexivity | rewrite L7; exact E ].
  set (pairs := combine (0 :: [1; 2; 3; 4; 5; 6; 7]) (y :: syms)).
  set (l0 := {| logic_data := []; label_start := None; label_end := None;
                invalid := true |}).
  assert (Hm : map (fun x : Z * (Z * span) => fst (snd x)) pairs
               = map fst (y :: syms)).
  { subst pairs.
    destruct syms as [|y1 [|y2 [|y3 [|y4 [|y5 [|y6 [|y7 [|]]]]]]]];
      try discriminate. reflexivity. }
  assert (Hs : label_start (fold_left byte_locals_step pairs l0)
               = Some (fst (snd y))).
  { subst pairs.
    destruct syms as [|y1 [|y2 [|y3 [|y4 [|y5 [|y6 [|y7 [|]]]]]]]];
      try discriminate.
    destruct y as [? [? ?]], y1 as [? [? ?]], y2 as [? [? ?]],
      y3 as [? [? ?]], y4 as [? [? ?]], y5 as [? [? ?]], y6 as [? [? ?]],
      y7 as [? [? ?]]. reflexivity. }
  assert (He : label_end (fold_left byte_locals_step pairs l0)
               = Some (snd (snd (last syms y)))).
  { subst pairs.
    destruct syms as [|y1 [|y2 [|y3 [|y4 [|y5 [|y6 [|y7 [|]]]]]]]];
      try discriminate.
    destruct y as [? [? ?]], y1 as [? [? ?]], y2 as [? [? ?]],
      y3 as [? [? ?]], y4 as [? [? ?]], y5 as [? [? ?]], y6 as [? [? ?]],
      y7 as [? [? ?]]. reflexivity. }
  cbv beta iota. rewrite Hs, He. cbn [local ret].
  rewrite fold_locals_invalid, Hm. cbn [invalid l0 andb].
  unfold byte_value.
  destruct (all_bits (map fst (y :: syms))) eqn:A.
  - rewrite fold_locals_logic_data by (rewrite Hm; exact A).
    rewrite Hm. cbn [logic_data l0 app].
    rewrite logic_to_byte_bits;
      [ | exact A | rewrite length_map; exact L].
    cbn [map] in A |- *. rewrite A. reflexivity.
  - cbn [map] in A |- *. rewrite A. reflexivity.
Qed.

Lemma read_byte_body_eoi i l d :
  next_symbol (interval_ms d) (src d) = None ->
  exists d', read_byte_body i l d = Eoi d'.
Proof.
  unfold next_symbol. intros H.
  destruct (pulse_pair (src d)) as [[[[s0 s1] s2] s3]|] eqn:P; [discriminate|].
  destruct (read_logic_level_eoi d P) as [d' E].
  exists d'. unfold read_byte_body, bind. rewrite E. reflexivity.
Qed.

Lemma read_byte_loop_eoi itv :
  forall n idxs l d,
    interval_ms d = itv ->
    List.length idxs = n ->
    next_symbols n itv (src d) = None ->
    exists d', for_each idxs read_byte_body l d = Eoi d'.
Proof.
  induction n as [|n IH]; intros idxs l d Hi Hl Hn; [discriminate|].
  destruct idxs as [|i idxs]; [discriminate|].
  rewrite next_symbols_S in Hn. rewrite for_each_cons. subst itv.
  destruct (next_symbol (interval_ms d) (src d)) as [[[v a] s1]|] eqn:E.
  - rewrite (read_byte_body_run _ _ _ _ _ _ E).
    apply IH; [reflexivity | cbn in Hl; lia |].
    cbn [src advanced moved set_out set_src].
    destruct (next_symbols n (interval_ms d) s1) as [[l2 s2]|];
      [discriminate|reflexivity].
  - destruct (read_byte_body_eoi i l d E) as [d' E']. rewrite E'.
    eexists; reflexivity.
Qed.

Lemma read_byte_eoi d :
  next_symbols 8 (interval_ms d) (src d) = None ->
  exists d', read_byte d = Eoi d'.
Proof.
  intros H.
  destruct (read_byte_loop_eoi (interval_ms d) 8 (range 8)
              {| logic_data := []; label_start := None; label_end := None;
                 invalid := true |} d eq_refl eq_refl H) as [d' E].
  exists d'. unfold read_byte, bind. rewrite E. reflexivity.
Qed.

Lemma next_symbols_values n itv : forall s l s',
  next_symbols n itv s = Some (l, s') ->
  Forall (fun y => fst y = 0 \/ fst y = 1 \/ fst y = -1) l.
Proof.
  induction n as [|n IH]; intros s l s' H.
  - inversion H. constructor.
  - rewrite next_symbols_S in H.
    destruct (next_symbol itv s) as [[[v a] s1]|] eqn:E0; [|discriminate].
    destruct (next_symbols n itv s1) as [[l2 s2]|] eqn:E; [|discriminate].
    inversion H; subst. constructor; [|eapply IH; eauto].
    unfold next_symbol in E0.
    destruct (pulse_pair s) as [[[[s0 s1'] s2'] s3]|]; [|discriminate].
    inversion E0; subst. apply logic_level_cases.
Qed.

Lemma all_bits_false_iff vs :
  Forall (fun v => v = 0 \/ v = 1 \/ v = -1) vs ->
  all_bits vs = false <-> In (-1) vs.
Proof.
  induction 1 as [|v vs Hv _ IH].
  - cbn. split; [discriminate|tauto].
  - cbn [all_bits forallb In]. rewrite andb_false_iff. fold (all_bits vs).
    rewrite IH. split.
    + intros [H|H]; [|auto]. left.
      destruct Hv as [Hv|[Hv|Hv]]; subst v; try discriminate; reflexivity.
    + intros [H|H]; [|auto]. left. subst v. reflexivity.
Qed.

(** C8.  [read_byte] reads exactly the next eight symbols of the
    source, valid or not (it does not return when the input ends before
    the eighth), and puts one Bit annotation for each.  Its value is -1
    exactly when one of the eight symbols is -1; when none is, it is the
    byte whose bits are the symbols, the first one most significant.
    Its span runs from the start of the first symbol to the end of the
    eighth. *)
Theorem read_byte_assembles d :
  match next_symbols 8 (interval_ms d) (src d) with
  | Some (syms, s') =>
      exists y0 y1 y2 y3 y4 y5 y6 y7 v d',
        syms = [y0; y1; y2; y3; y4; y5; y6; y7]
        /\ read_byte d = Ret (v, (fst (snd y0), snd (snd y7))) d'
        /\ src d' = s'
        /\ out d' = out d ++ map bit_annotation syms
        /\ (v = Int (-1) <-> exists y, In y syms /\ fst y = -1)
        /\ ((forall y, In y syms -> fst y <> -1) ->
            v = Bytes [128 * fst y0 + 64 * fst y1 + 32 * fst y2
                       + 16 * fst y3 + 8 * fst y4 + 4 * fst y5
                       + 2 * fst y6 + fst y7])
  | None => exists d', read_byte d = Eoi d'
  end.
Proof.
  destruct (next_symbols 8 (interval_ms d) (src d)) as [[syms s']|] eqn:E;
    [|apply read_byte_eoi; exact E].
  pose proof (next_symbols_length _ _ _ _ _ E) as L.
  pose proof (next_symbols_values _ _ _ _ _ E) as V.
  destruct syms as [|y0 [|y1 [|y2 [|y3 [|y4 [|y5 [|y6 [|y7 [|]]]]]]]]];
    try discriminate.
  exists y0, y1, y2, y3, y4, y5, y6, y7.
  eexists; eexists. split; [reflexivity|].
  split.
  { apply read_byte_run. unfold next_byte. rewrite E. reflexivity. }
  split; [reflexivity|]. split; [reflexivity|].
  set (syms := [y0; y1; y2; y3; y4; y5; y6; y7]) in *.
  assert (V' : Forall (fun v => v = 0 \/ v = 1 \/ v = -1) (map fst syms)).
  { apply Forall_map. exact V. }
  unfold byte_value. split.
  - destruct (all_bits (map fst syms)) eqn:A.
    + split; [discriminate|]. intros [y [Hin Hy]].
      assert (all_bits (map fst syms) = false) as A'.
      { apply all_bits_false_iff; [exact V'|]. rewrite <- Hy.
        apply in_map. exact Hin. }
      congruence.
    + split; [|reflexivity]. intros _.
      apply all_bits_false_iff in A; [|exact V'].
      apply in_map_iff in A. destruct A as [y [Hy Hin]]. eauto.
  - intros Hall. destruct (all_bits (map fst syms)) eqn:A.
    + unfold pack_msb, syms. cbn [map fold_left]. do 2 f_equal. ring.
    + apply all_bits_false_iff in A; [|exact V'].
      apply in_map_iff in A. destruct A as [y [Hy Hin]].
      exfalso. eapply Hall; eauto.
Qed.

(** ** Start to Data *)

(** The next [n] bytes of the source: value, span and Bit annotations of
    each. *)
Fixpoint next_bytes (n : nat) (itv : float) (s : source)
  : option (list (pyobj * span * list annotation) * source) :=
  match n with
  | O => Some ([], s)
  | S n' =>
      match next_byte itv s with
      | None => None
      | Some (v, a, anns, s1) =>
          match next_bytes n' itv s1 with
          | None => None
          | Some (l, s2) => Some ((v, a, anns) :: l, s2)
          end
      end
  end.

(** The label of payload slot [i]: none for an invalid byte. *)
Definition slot_annotation (i : Z) (b : pyobj * span * list annotation)
  : list annotation :=
  match fst (fst b) with
  | Bytes x =>
      [{| a_ss := fst (snd (fst b)); a_es := snd (snd (fst b));
          a_cls := if i =? 0 then Ann.FUNCTION else Ann.ARGS;
          a_text := [Str ("0x" ++ hex_upper x)] |}]
  | Int _ => []
  end.

(** What slot [i] leaves in the state after its byte was read. *)
Definition slot_put (i : Z) (b : pyobj * span * list annotation)
  (d : Decoder) : Decoder :=
  match fst (fst b) with
  | Bytes x =>
      let d1 := set_datas (datas d ++ [fst (fst b)]) d in
      let d2 := set_datas_anchors (datas_anchors d1 ++ [snd (fst b)]) d1 in
      let d3 := set_out (out d2 ++ slot_annotation i b) d2 in
      set_ss (es d3) d3
  | Int _ => d
  end.

Definition slot_locals (i : Z) (a : span) (l : Locals) : Locals :=
  {| anchor := Some a; preable_anchor := preable_anchor l;
     d_label_start := if i =? 0 then Some (fst a) else d_label_start l;
     d_label_end := if i =? 0 then d_label_end l
                    else if i =? 3 then Some (snd a) else d_label_end l |}.

Lemma next_byte_value itv s v a anns s' :
  next_byte itv s = Some (v, a, anns, s') ->
  (exists x, v = Bytes [x]) \/ v = Int (-1).
Proof.
  unfold next_byte.
  destruct (next_symbols 8 itv s) as [[[|y syms] s2]|]; try discriminate.
  intros H. inversion H; subst. unfold byte_value.
  destruct (all_bits _); eauto.
Qed.

Lemma data_body_run i l d v a anns s' :
  next_byte (interval_ms d) (src d) = Some (v, a, anns, s') ->
  data_body i l d =
  Ret (slot_locals i a l)
      (slot_put i (v, a, anns) (advanced s' (snd a) anns d)).
Proof.
  intros H. unfold data_body, bind.
  rewrite (read_byte_run _ _ _ _ _ H).
  destruct (next_byte_value _ _ _ _ _ _ H) as [[x Hv]|Hv]; subst v.
  - unfold slot_put, slot_annotation. cbn [fst snd ne_minus1].
    cbn [gets modify lift pyobj_hex ret].
    unfold slot_locals. destruct (i =? 0); reflexivity.
  - reflexivity.
Qed.

Lemma data_body_eoi i l d :
  next_byte (interval_ms d) (src d) = None ->
  exists d', data_body i l d = Eoi d'.
Proof.
  intros H. unfold next_byte in H.
  destruct (next_symbols 8 (interval_ms d) (src d)) as [[[|y syms] s2]|] eqn:E.
  - apply next_symbols_length in E. discriminate.
  - discriminate.
  - destruct (read_byte_eoi d E) as [d' E']. exists d'.
    unfold data_body, bind. rewrite E'. reflexivity.
Qed.

Lemma next_bytes_S n itv s :
  next_bytes (S n) itv s =
  match next_byte itv s with
  | None => None
  | Some (v, a, anns, s1) =>
      match next_bytes n itv s1 with
      | None => None
      | Some (l, s2) => Some ((v, a, anns) :: l, s2)
      end
  end.
Proof. reflexivity. Qed.

Lemma slot_put_src i b d : src (slot_put i b d) = src d.
Proof. unfold slot_put. destruct (fst (fst b)); reflexivity. Qed.

Lemma slot_put_interval_ms i b d :
  interval_ms (slot_put i b d) = interval_ms d.
Proof. unfold slot_put. destruct (fst (fst b)); reflexivity. Qed.

Lemma data_loop_eoi itv :
  forall n idxs l d,
    interval_ms d = itv ->
    List.length idxs = n ->
    next_bytes n itv (src d) = None ->
    exists d', for_each idxs data_body l d = Eoi d'.
Proof.
  induction n as [|n IH]; intros idxs l d Hi Hl Hn; [discriminate|].
  destruct idxs as [|i idxs]; [discriminate|].
  rewrite next_bytes_S in Hn. rewrite for_each_cons. subst itv.
  destruct (next_byte (interval_ms d) (src d)) as [[[[v a] anns] s1]|] eqn:E.
  - rewrite (data_body_run _ _ _ _ _ _ _ E).
    apply IH.
    + rewrite slot_put_interval_ms. reflexivity.
    + cbn in Hl; lia.
    + rewrite slot_put_src. cbn [src advanced moved set_out set_src].
      destruct (next_bytes n (interval_ms d) s1) as [[l2 s2]|];
        [discriminate|reflexivity].
  - destruct (data_body_eoi i l d E) as [d' E']. rewrite E'.
    eexists; reflexivity.
Qed.

(** The aggregate label of the four payload bytes. *)
Definition data_annotation (first last : pyobj * span * list annotation)
  : annotation :=
  {| a_ss := fst (snd (fst first)); a_es := snd (snd (fst last));
     a_cls := Ann.DATA; a_text := [Str "Data[0-3]"; Str "D"] |}.

(** The state after payload slot [i] read the byte [b]. *)
Definition slot_done (i : Z) (b : pyobj * span * list annotation)
  (s' : source) (d : Decoder) : Decoder :=
  slot_put i b (advanced s' (snd (snd (fst b))) (snd b) d).

Lemma slot_done_fields i v a anns s' d :
  (exists x, v = Bytes [x]) \/ v = Int (-1) ->
  let d' := slot_done i (v, a, anns) s' d in
  src d' = s' /\ interval_ms d' = interval_ms d
  /\ datas d' = datas d ++ filter ne_minus1 [v]
  /\ datas_anchors d' =
     datas_anchors d
     ++ map (fun b => snd (fst b))
          (filter (fun b : pyobj * span * list annotation =>
                     ne_minus1 (fst (fst b))) [(v, a, anns)])
  /\ out d' = out d ++ anns ++ slot_annotation i (v, a, anns).
Proof.
  intros [[x H]|H]; subst v; unfold slot_done, slot_put, slot_annotation,
    advanced; cbn.
  - rewrite <- app_assoc. repeat split; reflexivity.
  - rewrite !app_nil_r. repeat split; reflexivity.
Qed.

(** C7.  In state START the decoder reads exactly the next four bytes
    (it does not return when the input ends before).  Each byte that
    decoded is appended to the payload list with its anchor and labelled
    Function in slot 0 and Args in slots 1 to 3; a byte that is -1 is
    left out of the payload list and gets no label, so the list may hold
    fewer than four entries.  One Data label spans the four bytes, and
    the state becomes DATA. *)
Theorem start_to_data l d :
  state d = START ->
  match next_bytes 4 (interval_ms d) (src d) with
  | Some (bs, s') =>
      exists b0 b1 b2 b3 l' d',
        bs = [b0; b1; b2; b3]
        /\ decode_step l d = Ret l' d'
        /\ state d' = DATA
        /\ src d' = s'
        /\ datas d' = filter ne_minus1 (map (fun b => fst (fst b)) bs)
        /\ datas_anchors d' =
           map (fun b => snd (fst b))
             (filter (fun b => ne_minus1 (fst (fst b))) bs)
        /\ out d' =
           out d ++ snd b0 ++ slot_annotation 0 b0
                 ++ snd b1 ++ slot_annotation 1 b1
                 ++ snd b2 ++ slot_annotation 2 b2
                 ++ snd b3 ++ slot_annotation 3 b3
                 ++ [data_annotation b0 b3]
  | None => exists d', decode_step l d = Eoi d'
  end.
Proof.
  intros St.
  set (d0 := set_datas_anchors [] (set_datas [] d)).
  assert (Hstep : decode_step l d =
                  bind (for_each (range 4) data_body l)
                    (fun l' =>
                       s <- local (d_label_start l') ;;
                       e <- local (d_label_end l') ;;
                       put_label (s, e)
                         (Ann.DATA, [Str "Data[0-3]"; Str "D"]) ;;
                       modify (set_state DATA) ;;
                       ret l') d0).
  { unfold decode_step, bind at 1, gets. rewrite St. reflexivity. }
  rewrite Hstep. clear Hstep.
  change (interval_ms d) with (interval_ms d0).
  change (src d) with (src d0).
  change (out d) with (out d0).
  assert (D0 : datas d0 = []) by reflexivity.
  assert (A0 : datas_anchors d0 = []) by reflexivity.
  clearbody d0. clear St.
  destruct (next_bytes 4 (interval_ms d0) (src d0)) as [[bs s']|] eqn:E.
  2:{ destruct (data_loop_eoi (interval_ms d0) 4 (range 4) l d0
                  eq_refl eq_refl E) as [d' E'].
      exists d'. unfold bind. rewrite E'. reflexivity. }
  rewrite next_bytes_S in E.
  destruct (next_byte (interval_ms d0) (src d0))
    as [[[[v0 a0] n0] s1]|] eqn:E0; [|discriminate].
  rewrite next_bytes_S in E.
  destruct (next_byte (interval_ms d0) s1)
    as [[[[v1 a1] n1] s2]|] eqn:E1; [|discriminate].
  rewrite next_bytes_S in E.
  destruct (next_byte (interval_ms d0) s2)
    as [[[[v2 a2] n2] s3]|] eqn:E2; [|discriminate].
  rewrite next_bytes_S in E.
  destruct (next_byte (interval_ms d0) s3)
    as [[[[v3 a3] n3] s4]|] eqn:E3; [|discriminate].
  cbn [next_bytes] in E. inversion E; subst bs s'; clear E.
  pose proof (next_byte_value _ _ _ _ _ _ E0) as V0.
  pose proof (next_byte_value _ _ _ _ _ _ E1) as V1.
  pose proof (next_byte_value _ _ _ _ _ _ E2) as V2.
  pose proof (next_byte_value _ _ _ _ _ _ E3) as V3.
  exists (v0, a0, n0), (v1, a1, n1), (v2, a2, n2), (v3, a3, n3).
  change (range 4) with [0; 1; 2; 3].
  unfold bind at 1.
  rewrite for_each_cons, (data_body_run 0 _ _ _ _ _ _ E0).
  change (slot_put 0 (v0, a0, n0) (advanced s1 (snd a0) n0 d0))
    with (slot_done 0 (v0, a0, n0) s1 d0).
  destruct (slot_done_fields 0 v0 a0 n0 s1 d0 V0) as (S1 & I1 & D1 & A1 & O1).
  set (d1 := slot_done 0 _ _ _) in *. clearbody d1.
  rewrite <- S1, <- I1 in E1.
  rewrite for_each_cons, (data_body_run 1 _ _ _ _ _ _ E1).
  change (slot_put 1 (v1, a1, n1) (advanced s2 (snd a1) n1 d1))
    with (slot_done 1 (v1, a1, n1) s2 d1).
  destruct (slot_done_fields 1 v1 a1 n1 s2 d1 V1) as (S2 & I2 & D2 & A2 & O2).
  set (d2 := slot_done 1 _ _ _) in *. clearbody d2.
  rewrite <- I1, <- I2, <- S2 in E2.
  rewrite for_each_cons, (data_body_run 2 _ _ _ _ _ _ E2).
  change (slot_put 2 (v2, a2, n2) (advanced s3 (snd a2) n2 d2))
    with (slot_done 2 (v2, a2, n2) s3 d2).
  destruct (slot_done_fields 2 v2 a2 n2 s3 d2 V2) as (S3 & I3 & D3 & A3 & O3).
  set (d3 := slot_done 2 _ _ _) in *. clearbody d3.
  rewrite <- I1, <- I2, <- I3, <- S3 in E3.
  rewrite for_each_cons, (data_body_run 3 _ _ _ _ _ _ E3).
  change (slot_put 3 (v3, a3, n3) (advanced s4 (snd a3) n3 d3))
    with (slot_done 3 (v3, a3, n3) s4 d3).
  destruct (slot_done_fields 3 v3 a3 n3 s4 d3 V3) as (S4 & I4 & D4 & A4 & O4).
  set (d4 := slot_done 3 _ _ _) in *. clearbody d4.
  cbn [for_each ret].
  eexists; eexists. split; [reflexivity|].
  split; [reflexivity|].
  cbn [state src datas datas_anchors out set_state set_ss set_out].
  split; [reflexivity|]. split; [exact S4|].
  split; [|split].
  - rewrite D4, D3, D2, D1, D0. cbn [map fst filter app].
    repeat (destruct (ne_minus1 _)); reflexivity.
  - rewrite A4, A3, A2, A1, A0. cbn [map fst snd filter app].
    repeat (destruct (ne_minus1 _)); reflexivity.
  - rewrite O4, O3, O2, O1. repeat rewrite <- app_assoc. reflexivity.
Qed.

(** ** Idle to Preamble *)

(** The value [is_preamble] returns for a low and a high duration. *)
Definition preamble_value (low high : float) : Z :=
  if check_pluse_time_dflt low (float_of_int TIME_PREAMBLE_LOW_MS)
     && check_pluse_time_dflt high (float_of_int TIME_PREAMBLE_HIGH_MS)
  then 1 else -1.

Lemma is_preamble_run d s0 s1 s2 src1 src2 src3 :
  source_wait Falling (src d) = Some (s0, src1) ->
  source_wait Rising src1 = Some (s1, src2) ->
  source_wait Falling src2 = Some (s2, src3) ->
  is_preamble d =
  Ret (preamble_value (float_of_int (s1 - s0) * interval_ms d)
                      (float_of_int (s2 - s1) * interval_ms d), (s0, s2))
      (moved src3 s2 d).
Proof.
  intros H0 H1 H2.
  unfold is_preamble, bind, wait, gets, modify, calc_pluse_time,
    put_debug, ret.
  rewrite H0. cbn. rewrite H1. cbn. rewrite H2. cbn.
  unfold preamble_value, moved. cbn.
  match goal with
  | |- context [if ?c then _ else _] => destruct c
  end; reflexivity.
Qed.

Lemma preamble_value_truthy low high :
  truthy (preamble_value low high) = true.
Proof. unfold preamble_value. destruct (_ && _); reflexivity. Qed.

(** C1.  What the Idle step does on a preamble pulse pair:
    [is_preamble] returns 1 when the low duration matches 4 ms and the
    high duration matches 8 ms and -1 otherwise; the step then labels
    the pair 'Preamble' in both cases (both values are true in
    [if value:]), never 'Invalid', and moves to the state in which the
    start byte is read. *)
Theorem idle_label_is_preamble l d s0 s1 s2 src1 src2 src3 :
  state d = IDLE ->
  source_wait Falling (src d) = Some (s0, src1) ->
  source_wait Rising src1 = Some (s1, src2) ->
  source_wait Falling src2 = Some (s2, src3) ->
  let low := (float_of_int (s1 - s0) * interval_ms d)%float in
  let high := (float_of_int (s2 - s1) * interval_ms d)%float in
  let valid :=
    check_pluse_time_dflt low (float_of_int TIME_PREAMBLE_LOW_MS)
    && check_pluse_time_dflt high (float_of_int TIME_PREAMBLE_HIGH_MS) in
  exists d1 l' d',
    is_preamble d = Ret (if valid then 1 else -1, (s0, s2)) d1
    /\ decode_step l d = Ret l' d'
    /\ state d' = PREAMBLE
    /\ src d' = src3
    /\ preable_anchor l' = Some (s0, s2)
    /\ out d' =
       out d ++ [{| a_ss := s0; a_es := s2; a_cls := Ann.PREAMBLE;
                    a_text := [Str "Preamble"; Str "P"] |}].
Proof.
  intros St H0 H1 H2 low high valid.
  pose proof (is_preamble_run d _ _ _ _ _ _ H0 H1 H2) as R.
  fold low high in R.
  eexists; eexists; eexists. split; [exact R|].
  unfold decode_step, bind at 1, gets. rewrite St.
  unfold bind at 1. rewrite R.
  rewrite preamble_value_truthy.
  unfold bind at 1. rewrite put_label_moved.
  split; [reflexivity|].
  repeat split; reflexivity.
Qed.

(** A preamble whose low pulse lasts 3 ms. *)
Definition bad_preamble : list bool := pulse 75 200.

(** The idle decoder of a session on [samples] at 25 kHz, statistics
    off, as [decode] enters its loop. *)
Definition idle_on (samples : list bool) : Decoder :=
  outcome_state (decode_init (new_decoder (Some 25000) 0 samples)).

(** C1 at a 3 ms low pulse: [is_preamble] says -1, the label says
    'Preamble'. *)
Lemma invalid_preamble_labelled_preamble :
  exists d1 l' d',
    is_preamble (idle_on (packet_wave bad_preamble [])) = Ret (-1, (2, 277)) d1
    /\ decode_step no_locals (idle_on (packet_wave bad_preamble [])) = Ret l' d'
    /\ state d' = PREAMBLE
    /\ src d' = {| pos := 278; old := Some false; rest := repeat false 15 ++ [true; true] |}
    /\ preable_anchor l' = Some (2, 277)
    /\ out d' = [{| a_ss := 2; a_es := 277; a_cls := Ann.PREAMBLE;
                    a_text := [Str "Preamble"; Str "P"] |}].
Proof.
  exact (idle_label_is_preamble no_locals
           (idle_on (packet_wave bad_preamble [])) 2 77 277
           _ _ _ eq_refl eq_refl eq_refl eq_refl).
Defined.

(** ** Data to Checksum *)

(** The integer a payload entry counts for in the checksum. *)
Definition payload_value (v : pyobj) : Z :=
  match v with
  | Bytes b => from_bytes_big b
  | Int n => n
  end.

Definition payload_sum (buffer : list pyobj) : Z :=
  fold_right (fun v acc => payload_value v + acc) 0 buffer.

Lemma check_sum8_fold buffer : forall acc,
  fold_left
    (fun sum byte =>
       match byte with
       | Bytes b => sum + from_bytes_big b
       | Int n => sum + n
       end) buffer acc = acc + payload_sum buffer.
Proof.
  induction buffer as [|v buffer IH]; intros acc; cbn [fold_left payload_sum fold_right].
  - lia.
  - rewrite IH. fold (payload_sum buffer). destruct v; cbn [payload_value]; lia.
Qed.

Lemma check_sum8_mod buffer :
  check_sum8 buffer = payload_sum buffer mod 256.
Proof.
  unfold check_sum8. rewrite check_sum8_fold, Z.add_0_l.
  change 255 with (Z.ones 8). rewrite Z.land_ones by lia. reflexivity.
Qed.

(** The label of the checksum byte [b] over the payload [buffer]. *)
Definition checksum_annotation (buffer : list pyobj) (b : list Z) (a : span)
  : annotation :=
  {| a_ss := fst a; a_es := snd a; a_cls := Ann.DATA;
     a_text := if payload_sum buffer mod 256 =? from_bytes_big b
               then [Str ("CHECKSUM 0x" ++ hex_upper b)]
               else [Str "CHECKSUM Invalid"; Str "Invalid"; Str "I"] |}.

(** The Data step for any payload list.  In state DATA the decoder
    reads one byte.  When it decoded
    to a value, the decoder compares the sum of the payload list modulo
    256 with it, stores the result of the comparison in
    [checksum_invalid], and labels the byte 'CHECKSUM 0xNN' when they
    are equal and 'CHECKSUM Invalid' when not.  When the byte is -1
    nothing is compared: [checksum_invalid] keeps its value and there
    is no label.  Either way the state becomes SUM. *)
Theorem data_to_checksum l d :
  state d = DATA ->
  match next_byte (interval_ms d) (src d) with
  | Some (v, a, anns, s') =>
      exists l' d',
        decode_step l d = Ret l' d'
        /\ state d' = SUM /\ src d' = s' /\ anchor l' = Some a
        /\ datas d' = datas d
        /\ match v with
           | Bytes b =>
               checksum_invalid d' =
                 (payload_sum (datas d) mod 256 =? from_bytes_big b)
               /\ out d' =
                  out d ++ anns ++ [checksum_annotation (datas d) b a]
           | Int _ =>
               checksum_invalid d' = checksum_invalid d
               /\ out d' = out d ++ anns
           end
  | None => exists d', decode_step l d = Eoi d'
  end.
Proof.
  intros St.
  assert (Hstep : decode_step l d =
    ('(value, anchor') <- read_byte ;;
      (if ne_minus1 value then
         ds <- gets datas ;;
         v <- lift (int_from_bytes value) ;;
         modify (set_checksum_invalid (check_sum8 ds =? v)) ;;
         ci <- gets checksum_invalid ;;
         if ci then
           h <- lift (pyobj_hex value) ;;
           put_label anchor' (Ann.DATA, [Str ("CHECKSUM 0x" ++ h)])
         else
           put_label anchor'
             (Ann.DATA, [Str "CHECKSUM Invalid"; Str "Invalid"; Str "I"])
       else ret tt) ;;
      modify (set_state SUM) ;;
      ret {| anchor := Some anchor'; preable_anchor := preable_anchor l;
             d_label_start := d_label_start l;
             d_label_end := d_label_end l |}) d).
  { unfold decode_step, bind at 1, gets. rewrite St. reflexivity. }
  rewrite Hstep. clear Hstep St.
  destruct (next_byte (interval_ms d) (src d)) as [[[[v a] anns] s']|] eqn:E.
  2:{ unfold next_byte in E.
      destruct (next_symbols 8 (interval_ms d) (src d))
        as [[[|y syms] s2]|] eqn:E8.
      - apply next_symbols_length in E8. discriminate.
      - discriminate.
      - destruct (read_byte_eoi d E8) as [d' E']. exists d'.
        unfold bind. rewrite E'. reflexivity. }
  unfold bind at 1. rewrite (read_byte_run _ _ _ _ _ E).
  destruct (next_byte_value _ _ _ _ _ _ E) as [[x Hv]|Hv]; subst v.
  - cbn [ne_minus1].
    unfold bind, gets, lift, int_from_bytes, pyobj_hex, modify, ret.
    unfold checksum_annotation. rewrite <- check_sum8_mod.
    change (datas (advanced s' (snd a) anns d)) with (datas d).
    change (checksum_invalid
              (set_checksum_invalid (check_sum8 (datas d) =? from_bytes_big [x])
                 (advanced s' (snd a) anns d)))
      with (check_sum8 (datas d) =? from_bytes_big [x]).
    destruct (check_sum8 (datas d) =? from_bytes_big [x]) eqn:C.
    + eexists; eexists. split; [reflexivity|].
      repeat split; try reflexivity.
      unfold advanced. cbn. rewrite <- app_assoc. reflexivity.
    + eexists; eexists. split; [reflexivity|].
      repeat split; try reflexivity.
      unfold advanced. cbn. rewrite <- app_assoc. reflexivity.
  - cbn [ne_minus1 Z.eqb negb].
    eexists; eexists. split; [reflexivity|].
    repeat split; reflexivity.
Qed.

(** ** The theorems at concrete signals *)

(** The decoder after [n] iterations of the loop on [samples]. *)
Definition after_steps (n : nat) (samples : list bool) : Decoder :=
  outcome_state (decode_loop n no_locals (idle_on samples)).

(** A logic 1 symbol read from sample 0: 16 low samples (0.64 ms), 36
    high samples (1.44 ms). *)
Lemma read_logic_level_one :
  exists d',
    read_logic_level (idle_on (bit_wave true ++ [false]))
    = Ret (1, (0, 52)) d'.
Proof.
  destruct (read_logic_level_classifies
              (idle_on (bit_wave true ++ [false])) 0 16 52 _ _ _
              eq_refl eq_refl eq_refl)
    as (v & d' & R & _ & _ & _ & H).
  destruct (H eq_refl) as (_ & H1 & _).
  exists d'. rewrite R, (H1 eq_refl). reflexivity.
Defined.

(** Start 0x4C, payload 01 (bad) 03 04: the second payload byte has a
    high pulse of 24 samples (0.96 ms) in its third bit. *)
Definition bad_byte_wave : list bool :=
  bit_wave false ++ bit_wave false ++ pulse 16 24
  ++ flat_map bit_wave [false; false; false; true; false].

Definition short_payload_packet : list bool :=
  packet_wave good_preamble
    [byte_wave 76; byte_wave 1; bad_byte_wave; byte_wave 3; byte_wave 4;
     byte_wave 8].

(** C7 at that packet: the payload list holds three bytes, and the
    labels after the start byte are Function 0x01, Args 0x03, Args 0x04
    and the Data label. *)
Lemma start_to_data_short_payload :
  exists l' d',
    decode_step no_locals (after_steps 2 short_payload_packet) = Ret l' d'
    /\ state d' = DATA
    /\ datas d' = [Bytes [1]; Bytes [3]; Bytes [4]]
    /\ map (fun a => (Ann.index (a_cls a), a_text a))
         (filter (fun a => negb (Ann.index (a_cls a) =? 0))
            (skipn 10 (out d')))
       = [(6, [Str "0x01"]); (7, [Str "0x03"]); (7, [Str "0x04"]);
          (3, [Str "Data[0-3]"; Str "D"])].
Proof.
  pose proof (start_to_data no_locals (after_steps 2 short_payload_packet)
                ltac:(vm_compute; reflexivity)) as H.
  destruct (next_bytes 4 _ _) as [[bs s']|] eqn:E;
    [|vm_compute in E; discriminate].
  destruct H as (b0 & b1 & b2 & b3 & l' & d' & Hbs & R & St & _ & Hd & _ & Ho).
  exists l', d'. split; [exact R|]. split; [exact St|].
  subst bs. vm_compute in E. inversion E; subst; clear E.
  split; [rewrite Hd; reflexivity|].
  rewrite Ho. vm_compute. reflexivity.
Defined.

(** The Data step at the checksum byte 0x0A of the payload
    01 02 03 04. *)
Lemma data_to_checksum_good :
  exists l' d',
    decode_step no_locals (after_steps 3 good_packet) = Ret l' d'
    /\ state d' = SUM
    /\ checksum_invalid d' = true
    /\ map (fun a => (Ann.index (a_cls a), a_text a)) (skipn 47 (out d'))
       = [(0, [Str "0"]); (0, [Str "0"]); (0, [Str "0"]); (0, [Str "0"]);
          (0, [Str "1"]); (0, [Str "0"]); (0, [Str "1"]); (0, [Str "0"]);
          (3, [Str "CHECKSUM 0x0A"])].
Proof.
  pose proof (data_to_checksum no_locals (after_steps 3 good_packet)
                ltac:(vm_compute; reflexivity)) as H.
  destruct (next_byte _ _) as [[[[v a] anns] s']|] eqn:E;
    [|vm_compute in E; discriminate].
  destruct H as (l' & d' & R & St & _ & _ & _ & Hv).
  exists l', d'. split; [exact R|]. split; [exact St|].
  vm_compute in E. inversion E; subst; clear E.
  destruct Hv as [Hc Ho]. split; [rewrite Hc; reflexivity|].
  rewrite Ho. vm_compute. reflexivity.
Defined.

(** ** Checksum to Idle: statistics *)

(** The target 0x01020304. *)
Definition target_1234 : Z := 16909060.

(** Start byte with an invalid third bit, payload 01 02 03 04, checksum
    0x0A. *)
Definition bad_start_packet : list bool :=
  packet_wave good_preamble
    [bad_byte_wave; byte_wave 1; byte_wave 2; byte_wave 3; byte_wave 4;
     byte_wave 10].

(** Evaluation of the monad and of the state's fields. *)
Ltac run1 :=
  cbv beta delta [bind gets modify ret raise lift local];
  cbn [state ss es datas start_code checksum_invalid datas_anchors total
       pass_num fail_num is_statistic samplerate samplenum interval_ms
       target_data src out
       set_state set_ss set_es set_datas set_start_code set_checksum_invalid
       set_datas_anchors set_total set_pass_num set_fail_num set_is_statistic
       set_samplenum set_interval_ms set_src set_out
       fst snd].

Ltac run := repeat (progress run1).

(** Statistics are on exactly when [target_data] is not 0. *)
Lemma decode_init_statistic d r :
  samplerate d = Some r -> r <> 0 ->
  decode_init d =
  Ret tt (set_is_statistic (negb (target_data d =? 0))
            (set_interval_ms (float_of_int 1000 / float_of_int r)%float d)).
Proof.
  intros H R. unfold decode_init, bind, gets. rewrite H.
  unfold truthy. destruct (Z.eqb_spec r 0) as [E|E]; [contradiction|].
  cbn. destruct (target_data d =? 0); reflexivity.
Qed.

(** Without a sample rate [decode] raises at once and puts nothing. *)
Lemma decode_without_samplerate d :
  (samplerate d = None -> decode d = Exc AttributeError d)
  /\ (samplerate d = Some 0 -> decode d = Exc SamplerateError d).
Proof.
  split; intros H; unfold decode, decode_init, bind, gets; rewrite H;
    reflexivity.
Qed.

(** C6.  A completed packet whose start byte did not decode, while the
    payload equals the target and the checksum flag holds: the step
    increments [total] and then raises TypeError on
    [int.from_bytes(-1, 'big')]; neither [pass_num] nor [fail_num] is
    incremented and no summary is put. *)
Theorem sum_step_invalid_start_raises l d n s :
  state d = SUM ->
  is_statistic d = true ->
  source_wait Rising (src d) = Some (n, s) ->
  (exists bs, bytes_join (datas d) = inr bs
              /\ int_to_bytes (target_data d) 4 = inr bs) ->
  checksum_invalid d = true ->
  start_code d = Int (-1) ->
  exists d',
    decode_step l d = Exc TypeError d'
    /\ total d' = total d + 1
    /\ pass_num d' = pass_num d
    /\ fail_num d' = fail_num d
    /\ out d' = out d.
Proof.
  intros St Hs Hw (bs & Hj & Ht) Hc Hsc.
  unfold decode_step, bind at 1, gets. rewrite St.
  unfold bind at 1, wait. rewrite Hw.
  run. rewrite Hs. run. rewrite Hj. run. rewrite Ht. run.
  rewrite Hc, Hsc. cbn [int_from_bytes]. run.
  destruct (list_eq_dec Z.eq_dec bs bs) as [_|N]; [|contradiction].
  eexists. split; [reflexivity|]. repeat split; reflexivity.
Qed.

(** The idle decoder of a session on [samples] at 25 kHz with the
    target 0x01020304. *)
Definition statistics_on (samples : list bool) : Decoder :=
  outcome_state (decode_init (new_decoder (Some 25000) target_1234 samples)).

(** C6 at the packet with the invalid start byte. *)
Lemma sum_step_bad_start_packet :
  exists d',
    decode_step
      no_locals
      (outcome_state
         (decode_loop 4 no_locals (statistics_on bad_start_packet)))
    = Exc TypeError d'
    /\ total d' = 1 /\ pass_num d' = 0 /\ fail_num d' = 0.
Proof.
  destruct (sum_step_invalid_start_raises
              no_locals
              (outcome_state
                 (decode_loop 4 no_locals (statistics_on bad_start_packet)))
              1866 {| pos := 1867; old := Some true; rest := [true] |}
              ltac:(vm_compute; reflexivity) ltac:(vm_compute; reflexivity)
              ltac:(vm_compute; reflexivity)
              ltac:(exists [1; 2; 3; 4]; split; vm_compute; reflexivity)
              ltac:(vm_compute; reflexivity) ltac:(vm_compute; reflexivity))
    as (d' & R & T & P & F & _).
  exists d'. split; [exact R|].
  rewrite T, P, F. vm_compute. repeat split; reflexivity.
Defined.

(** C2.  A session with statistics on and a packet whose start byte
    has one invalid symbol: [decode] ends with TypeError at the end of
    the packet. *)
Theorem decode_invalid_start_raises :
  exists d',
    decode (new_decoder (Some 25000) target_1234 bad_start_packet)
    = Exc TypeError d'
    /\ state d' = SUM /\ start_code d' = Int (-1)
    /\ datas d' = [Bytes [1]; Bytes [2]; Bytes [3]; Bytes [4]]
    /\ checksum_invalid d' = true
    /\ total d' = 1 /\ pass_num d' = 0 /\ fail_num d' = 0.
Proof.
  eexists. split; [vm_compute; reflexivity|].
  repeat split; reflexivity.
Qed.

(** Whether a completed packet counts as a pass. *)
Definition packet_passes (read_bytes target_bytes : list Z)
  (checksum_ok : bool) (start : list Z) : bool :=
  (if list_eq_dec Z.eq_dec read_bytes target_bytes then true else false)
  && checksum_ok && (from_bytes_big start =? START_CODE).

(** The Checksum to Idle step when the start byte decoded: [total] is
    incremented; with statistics off nothing else happens; with
    statistics on the packet passes exactly when the joined payload
    equals the four target bytes, the checksum flag holds and the start
    byte is 0x4C, the other counter is left alone, and the summary
    carries the rate [pass_num / total * 100]. *)
Lemma sum_step_statistics l d n s :
  state d = SUM ->
  source_wait Rising (src d) = Some (n, s) ->
  (is_statistic d = false ->
   exists d',
     decode_step l d = Ret l d' /\ state d' = IDLE
     /\ total d' = total d + 1
     /\ pass_num d' = pass_num d /\ fail_num d' = fail_num d
     /\ out d' = out d)
  /\ (is_statistic d = true ->
      forall rb tb sc pa a,
        bytes_join (datas d) = inr rb ->
        int_to_bytes (target_data d) 4 = inr tb ->
        start_code d = Bytes sc ->
        preable_anchor l = Some pa ->
        anchor l = Some a ->
        total d + 1 <> 0 ->
        let pass := packet_passes rb tb (checksum_invalid d) sc in
        exists d',
          decode_step l d = Ret l d' /\ state d' = IDLE
          /\ total d' = total d + 1
          /\ pass_num d' = pass_num d + (if pass then 1 else 0)
          /\ fail_num d' = fail_num d + (if pass then 0 else 1)
          /\ out d' =
             out d ++
             [{| a_ss := fst pa; a_es := snd a; a_cls := Ann.DEBUG;
                 a_text :=
                   [FmtStat (if pass then "PASS" else "FAIL")
                      (fail_num d') (total d')
                      (float_of_int (pass_num d') / float_of_int (total d')
                       * 100)%float] |}]).
Proof.
  intros St Hw. split.
  - intros Hs.
    unfold decode_step, bind at 1, gets. rewrite St.
    unfold bind at 1, wait. rewrite Hw.
    run. rewrite Hs. run.
    eexists. split; [reflexivity|]. repeat split; reflexivity.
  - intros Hs rb tb sc pa a Hj Ht Hsc Hpa Ha Htot pass.
    unfold decode_step, bind at 1, gets. rewrite St.
    unfold bind at 1, wait. rewrite Hw.
    run. rewrite Hs. run. rewrite Hj. run. rewrite Ht. run.
    rewrite Hsc, Hpa, Ha. cbn [int_from_bytes].
    unfold pass, packet_passes.
    destruct (list_eq_dec Z.eq_dec rb tb) as [E|E];
      [destruct (checksum_invalid d);
       [destruct (from_bytes_big sc =? START_CODE)|]|];
      run; cbn [andb];
      (destruct (Z.eqb_spec (total d + 1) 0) as [Z0|Z0]; [contradiction|]);
      unfold put_label, put; run;
      (eexists; split; [reflexivity|]);
      repeat split; run; try reflexivity; lia.
Qed.

(** ** Spans of the annotations *)

(** The display row of an annotation. *)
Definition ann_row (a : annotation) : option Row := row_of (a_cls a).

Definition well_formed (a : annotation) : Prop := a_ss a <= a_es a.

(** [a], put before [b], does not reach into [b] when both are of one
    row. *)
Definition before (a b : annotation) : Prop :=
  ann_row a = ann_row b -> a_es a <= a_ss b.

(** Every span is well formed, and within each row the spans follow one
    another in the order they were put. *)
Definition row_ordered (l : list annotation) : Prop :=
  Forall well_formed l /\ ForallOrdPairs before l.











(** What [ext] preserves: the order of all annotations, and that they
    end before the position of the source. *)
Definition settled (d : Decoder) : Prop :=
  row_ordered (out d) /\ Forall (fun a => a_es a < pos (src d)) (out d).


(** ** Positions of the reads *)

Lemma scan_bounds c : forall l prev p n s',
  scan c prev p l = Some (n, s') ->
  p <= n /\ pos s' = n + 1
  /\ (List.length (rest s') < List.length l)%nat.
Proof.
  induction l as [|x l IH]; intros prev p n s' H; [discriminate|].
  cbn [scan] in H. destruct (cond_match c prev x).
  - inversion H; subst. cbn. repeat split; lia.
  - apply IH in H. cbn [List.length]. lia.
Qed.

Lemma source_wait_bounds c s n s' :
  source_wait c s = Some (n, s') ->
  pos s <= n /\ pos s' = n + 1
  /\ (List.length (rest s') < List.length (rest s))%nat.
Proof. apply scan_bounds. Qed.

Lemma pulse_pair_bounds s s0 s1 s2 s' :
  pulse_pair s = Some (s0, s1, s2, s') ->
  pos s <= s0 /\ s0 < s1 /\ s1 < s2 /\ pos s' = s2 + 1
  /\ (List.length (rest s') < List.length (rest s))%nat.
Proof.
  unfold pulse_pair. intros H.
  destruct (source_wait Low s) as [[a src1]|] eqn:H0; [|discriminate].
  destruct (source_wait High src1) as [[b src2]|] eqn:H1; [|discriminate].
  destruct (source_wait Falling src2) as [[c src3]|] eqn:H2; [|discriminate].
  inversion H; subst; clear H.
  apply source_wait_bounds in H0, H1, H2. lia.
Qed.

(** ** Outcomes *)
























(** ** The invariant of the decode loop *)

(** Every Debug-row annotation put so far ends at or before [ps]. *)
Definition debug_frontier (ps : Z) (d : Decoder) : Prop :=
  Forall (fun a => ann_row a = Some debugs -> a_es a <= ps) (out d).

Definition loop_inv (l : Locals) (d : Decoder) : Prop :=
  settled d
  /\ match state d with
     | IDLE => True
     | SUM =>
         forall ps pe, preable_anchor l = Some (ps, pe) ->
           debug_frontier ps d
           /\ forall cs ce, anchor l = Some (cs, ce) ->
                ps <= ce /\ ce < pos (src d)
     | _ =>
         forall ps pe, preable_anchor l = Some (ps, pe) ->
           ps < pos (src d) /\ debug_frontier ps d
     end.





Lemma decode_step_unfold l d :
  decode_step l d =
  match state d with
  | IDLE =>
      ('(value, anchor') <- is_preamble ;;
       (if truthy value
        then put_label anchor' (Ann.PREAMBLE, [Str "Preamble"; Str "P"])
        else put_label anchor' (Ann.PREAMBLE, [Str "Invalid"; Str "I"])) ;;
       modify (set_state PREAMBLE) ;;
       ret {| anchor := Some anchor'; preable_anchor := Some anchor';
              d_label_start := d_label_start l;
              d_label_end := d_label_end l |}) d
  | PREAMBLE => (is_start ;; modify (set_state START) ;; ret l) d
  | START =>
      (l' <- for_each (range 4) data_body l ;;
       s <- local (d_label_start l') ;;
       e <- local (d_label_end l') ;;
       put_label (s, e) (Ann.DATA, [Str "Data[0-3]"; Str "D"]) ;;
       modify (set_state DATA) ;;
       ret l') (set_datas_anchors [] (set_datas [] d))
  | DATA =>
      ('(value, anchor') <- read_byte ;;
       (if ne_minus1 value then
          ds <- gets datas ;;
          v <- lift (int_from_bytes value) ;;
          modify (set_checksum_invalid (check_sum8 ds =? v)) ;;
          ci <- gets checksum_invalid ;;
          if ci then
            h <- lift (pyobj_hex value) ;;
            put_label anchor' (Ann.DATA, [Str ("CHECKSUM 0x" ++ h)])
          else
            put_label anchor'
              (Ann.DATA, [Str "CHECKSUM Invalid"; Str "Invalid"; Str "I"])
        else ret tt) ;;
       modify (set_state SUM) ;;
       ret {| anchor := Some anchor'; preable_anchor := preable_anchor l;
              d_label_start := d_label_start l;
              d_label_end := d_label_end l |}) d
  | SUM =>
      (wait Rising ;;
       n <- gets samplenum ;; modify (set_es n) ;;
       t <- gets total ;; modify (set_total (t + 1)) ;;
       st <- gets is_statistic ;;
       (if st then
          ds <- gets datas ;;
          read_bytes <- lift (bytes_join ds) ;;
          td <- gets target_data ;;
          target_bytes <- lift (int_to_bytes td 4) ;;
          ci <- gets checksum_invalid ;;
          sc <- gets start_code ;;
          c <- (if list_eq_dec Z.eq_dec read_bytes target_bytes then
                  if ci then
                    v <- lift (int_from_bytes sc) ;; ret (v =? START_CODE)
                  else ret false
                else ret false) ;;
          result_str <-
            (if c : bool then
               p <- gets pass_num ;; modify (set_pass_num (p + 1)) ;;
               ret "PASS"%string
             else
               f <- gets fail_num ;; modify (set_fail_num (f + 1)) ;;
               ret "FAIL"%string) ;;
          p <- gets pass_num ;; t <- gets total ;;
          rate <- (if t =? 0 then raise ZeroDivisionError
                   else ret (float_of_int p / float_of_int t * 100)%float) ;;
          pa <- local (preable_anchor l) ;;
          a <- local (anchor l) ;;
          f <- gets fail_num ;;
          put_label (fst pa, snd a) (Ann.DEBUG, [FmtStat result_str f t rate])
        else ret tt) ;;
       modify (set_state IDLE) ;;
       ret l) d
  end.
Proof.
  unfold decode_step, bind at 1, gets. destruct (state d); reflexivity.
Qed.


Definition stopped (d' : Decoder) : Prop := row_ordered (out d').











Lemma loop_inv_stopped l d : loop_inv l d -> stopped d.
Proof. intros [[H _] _]. exact H. Qed.









(** The annotations of a whole session. *)
Definition session_output (rate : option Z) (target : Z)
  (samples : list bool) : list annotation :=
  out (outcome_state (decode (new_decoder rate target samples))).



(** ** Preamble to Start *)

(** The label [is_start] puts on the start byte. *)
Definition start_annotation (v : pyobj) (a : span) : annotation :=
  {| a_ss := fst a; a_es := snd a; a_cls := Ann.START;
     a_text :=
       match v with
       | Bytes b =>
           if from_bytes_big b =? START_CODE
           then [Str ("Start (0x" ++ hex_upper b ++ ")"); Str "Start"; Str "S"]
           else [Str "Invalid"; Str "I"]
       | Int _ => [Str "Invalid"; Str "I"]
       end |}.

(** Whether [is_start] found the start code. *)
Definition start_found (v : pyobj) : bool :=
  match v with
  | Bytes b => from_bytes_big b =? START_CODE
  | Int _ => false
  end.

(** X3.  [is_start] reads one byte (it does not return when the input
    ends before), keeps it in [start_code] whether it decoded or not,
    and returns true exactly when the byte is 0x4C.  It labels the byte
    'Start (0x4C)' in that case and 'Invalid' otherwise; the payload
    list, the checksum flag and the counters are left alone, and it
    never raises. *)
Theorem is_start_labels d :
  match next_byte (interval_ms d) (src d) with
  | Some (v, a, anns, s') =>
      exists d',
        is_start d = Ret (start_found v) d'
        /\ start_code d' = v
        /\ src d' = s'
        /\ out d' = out d ++ anns ++ [start_annotation v a]
        /\ (start_found v = true ->
            v = Bytes [START_CODE]
            /\ a_text (start_annotation v a)
               = [Str "Start (0x4C)"; Str "Start"; Str "S"])
        /\ datas d' = datas d /\ checksum_invalid d' = checksum_invalid d
        /\ state d' = state d
        /\ (total d', pass_num d', fail_num d')
           = (total d, pass_num d, fail_num d)
  | None => exists d', is_start d = Eoi d'
  end.
Proof.
  destruct (next_byte (interval_ms d) (src d)) as [[[[v a] anns] s']|] eqn:E.
  2:{ unfold next_byte in E.
      destruct (next_symbols 8 (interval_ms d) (src d))
        as [[[|y syms] s2]|] eqn:E8.
      - apply next_symbols_length in E8. discriminate.
      - discriminate.
      - destruct (read_byte_eoi d E8) as [d' E']. exists d'.
        unfold is_start, bind. rewrite E'. reflexivity. }
  unfold is_start, bind at 1. rewrite (read_byte_run _ _ _ _ _ E).
  destruct (next_byte_value _ _ _ _ _ _ E) as [[x Hv]|Hv]; subst v.
  - unfold start_found, start_annotation.
    change (from_bytes_big [x]) with (0 * 256 + x).
    cbn [ne_minus1 int_from_bytes]. run.
    change (from_bytes_big [x]) with (0 * 256 + x).
    destruct (Z.eqb_spec (0 * 256 + x) START_CODE) as [C|C].
    + assert (x = START_CODE) by lia. subst x.
      cbn [pyobj_hex]. run. unfold put_label, put. run.
      eexists. split; [reflexivity|]. unfold advanced, moved. run.
      split; [reflexivity|]. split; [reflexivity|].
      split; [rewrite <- app_assoc; reflexivity|].
      split; [intros _; split; reflexivity|].
      repeat split; reflexivity.
    + unfold put_label, put. run.
      eexists. split; [reflexivity|]. unfold advanced, moved. run.
      split; [reflexivity|]. split; [reflexivity|].
      split; [rewrite <- app_assoc; reflexivity|].
      split; [discriminate|].
      repeat split; reflexivity.
  - unfold start_found, start_annotation. cbn [ne_minus1 Z.eqb negb].
    run. unfold put_label, put. run.
    eexists. split; [reflexivity|]. unfold advanced, moved. run.
    split; [reflexivity|]. split; [reflexivity|].
    split; [rewrite <- app_assoc; reflexivity|].
    split; [discriminate|].
    repeat split; reflexivity.
Qed.
From Stdlib Require Import Permutation.

(** ** The checksum *)

Lemma payload_sum_app a b : payload_sum (a ++ b) = payload_sum a + payload_sum b.
Proof.
  unfold payload_sum. induction a as [|v a IH]; cbn [app fold_right]; [lia|].
  rewrite IH. lia.
Qed.

Lemma payload_sum_perm a b : Permutation a b -> payload_sum a = payload_sum b.
Proof.
  unfold payload_sum. induction 1; cbn [fold_right]; lia.
Qed.

(** X4.  [check_sum8] is the sum of the buffer modulo 256 (each [bytes]
    entry counting for its big-endian value): it lies in 0..255, is 0
    for the empty buffer, is additive modulo 256 over concatenation,
    and does not depend on the order of the entries. *)
Theorem check_sum8_properties (a b : list pyobj) :
  0 <= check_sum8 a < 256
  /\ check_sum8 a = payload_sum a mod 256
  /\ check_sum8 [] = 0
  /\ check_sum8 (a ++ b) = (check_sum8 a + check_sum8 b) mod 256
  /\ (Permutation a b -> check_sum8 a = check_sum8 b).
Proof.
  rewrite !check_sum8_mod, payload_sum_app.
  split; [apply Z.mod_pos_bound; lia|].
  split; [reflexivity|]. split; [reflexivity|].
  split; [apply Z.add_mod; lia|].
  intros P. rewrite (payload_sum_perm a b P). reflexivity.
Qed.

(** ** Bits to byte *)

Lemma all_bits_rev bits : all_bits (rev bits) = all_bits bits.
Proof.
  unfold all_bits. induction bits as [|b bits IH]; [reflexivity|].
  cbn [rev forallb]. rewrite forallb_app, IH. cbn [forallb].
  rewrite andb_true_r. apply andb_comm.
Qed.

Lemma int_base2_bits bits :
  all_bits bits = true ->
  int_base2 (String.concat "" (map str bits)) =
  match bits with
  | [] => inl ValueError
  | _ => inr (pack_msb bits)
  end.
Proof.
  intros H. destruct bits as [|v bits]; [reflexivity|].
  unfold int_base2.
  destruct (String.concat "" (map str (v :: bits))) as [|c s] eqn:E.
  - cbn [all_bits forallb] in H. apply andb_true_iff in H.
    destruct H as [Hv _].
    apply orb_true_iff in Hv. destruct Hv as [Hv|Hv]; apply Z.eqb_eq in Hv;
      subst v; cbn [map] in E.
    + rewrite str_1, concat_char in E. discriminate.
    + rewrite str_0, concat_char in E. discriminate.
  - rewrite <- E. apply int_base2_acc_bits. exact H.
Qed.

Lemma pack_msb_nonneg bits : all_bits bits = true -> 0 <= pack_msb bits.
Proof. intros H. apply (pack_msb_bound bits 0 H). lia. Qed.

(** X5.  [logic_to_byte] on a list of bits: it raises ValueError on the
    empty list and when the bits read as a number above 255, and
    otherwise returns the one byte whose binary digits are the bits,
    first bit most significant when [msb] is true and least significant
    when it is false. *)
Theorem logic_to_byte_cases (bits : list Z) (msb : bool) :
  all_bits bits = true ->
  logic_to_byte bits msb =
  match bits with
  | [] => inl ValueError
  | _ =>
      let n := pack_msb (if msb then bits else rev bits) in
      if n <? 256 then inr (Bytes [n]) else inl ValueError
  end.
Proof.
  intros H. unfold logic_to_byte.
  assert (H' : all_bits (if msb then bits else rev bits) = true).
  { destruct msb; [exact H|]. rewrite all_bits_rev. exact H. }
  rewrite (int_base2_bits _ H').
  destruct bits as [|b bits].
  - destruct msb; reflexivity.
  - assert (N : (if msb then b :: bits else rev (b :: bits)) <> []).
    { destruct msb; [discriminate|]. cbn [rev].
      intros E. apply app_eq_nil in E. destruct E; discriminate. }
    pose proof (pack_msb_nonneg _ H') as P.
    destruct (if msb then b :: bits else rev (b :: bits)) as [|c cs] eqn:E;
      [contradiction|].
    cbv zeta. unfold bytes_of_int.
    destruct (Z.leb_spec 0 (pack_msb (c :: cs))); [|lia]. reflexivity.
Qed.

Lemma logic_to_byte_start_code :
  logic_to_byte [0; 1; 0; 0; 1; 1; 0; 0] true = inr (Bytes [76])
  /\ logic_to_byte [0; 0; 1; 1; 0; 0; 1; 0] false = inr (Bytes [76])
  /\ logic_to_byte [1; 0; 0; 0; 0; 0; 0; 0; 0] true = inl ValueError.
Proof.
  rewrite !logic_to_byte_cases by reflexivity.
  repeat split; reflexivity.
Defined.

(** The bits of a byte as the integers [read_byte] collects. *)
Definition int_bits (n : Z) : list Z := map Z.b2z (bits_of_byte n).

Lemma byte_range n : 0 <= n < 256 -> In n (map Z.of_nat (seq 0 256)).
Proof.
  intros H. apply in_map_iff. exists (Z.to_nat n). split; [lia|].
  apply in_seq. lia.
Qed.

Definition is_byte (r : exn + pyobj) (n : Z) : bool :=
  match r with
  | inr (Bytes [x]) => x =? n
  | _ => false
  end.

Lemma is_byte_eq r n : is_byte r n = true -> r = inr (Bytes [n]).
Proof.
  destruct r as [e|[[|x [|y b]]|m]]; try discriminate.
  cbn. intros H. apply Z.eqb_eq in H. subst x. reflexivity.
Qed.

(** X6.  Round trip: for every byte value, [logic_to_byte] gives the
    byte back from its eight binary digits, most significant first
    with [msb] true, least significant first with [msb] false. *)
Theorem logic_to_byte_round_trip n :
  0 <= n < 256 ->
  logic_to_byte (int_bits n) true = inr (Bytes [n])
  /\ logic_to_byte (rev (int_bits n)) false = inr (Bytes [n]).
Proof.
  intros H. apply byte_range in H.
  assert (A : forallb
                (fun n => is_byte (logic_to_byte (int_bits n) true) n
                          && is_byte (logic_to_byte (rev (int_bits n)) false) n)
                (map Z.of_nat (seq 0 256)) = true)
    by (vm_compute; reflexivity).
  rewrite forallb_forall in A. specialize (A n H).
  apply andb_true_iff in A. destruct A as [A1 A2].
  split; apply is_byte_eq; assumption.
Qed.

Lemma logic_to_byte_round_trip_4C :
  logic_to_byte (int_bits 76) true = inr (Bytes [76])
  /\ logic_to_byte (rev (int_bits 76)) false = inr (Bytes [76]).
Proof. apply (logic_to_byte_round_trip 76). lia. Defined.

(** ** The timing classes do not meet *)

Ltac windows_apart H1 H2 :=
  apply check_pluse_time_dflt_iff in H1;
  destruct (check_pluse_time_dflt _ _) eqn:H2; [|reflexivity];
  apply check_pluse_time_dflt_iff in H2;
  exfalso;
  destruct H1 as [L1 U1]; destruct H2 as [L2 U2];
  first
    [ pose proof (float_leb_trans _ _ _ L1 U2) as C; vm_compute in C;
      discriminate C
    | pose proof (float_leb_trans _ _ _ L2 U1) as C; vm_compute in C;
      discriminate C ].

(** X7.  At the default tolerance no duration matches two of the
    decoder's nominal durations (4 ms, 8 ms, 0.64 ms, 0.48 ms,
    1.44 ms): a pulse that is accepted for one of them is rejected for
    every other, so the order of the tests in [read_logic_level] does
    not matter. *)
Theorem timing_classes_exclusive (m n1 n2 : float) :
  In n1 nominal_times -> In n2 nominal_times -> n1 <> n2 ->
  check_pluse_time_dflt m n1 = true ->
  check_pluse_time_dflt m n2 = false.
Proof.
  unfold nominal_times. cbn [In].
  intros [H1|[H1|[H1|[H1|[H1|[]]]]]] [H2|[H2|[H2|[H2|[H2|[]]]]]] N C;
    subst n1 n2; try (exfalso; apply N; reflexivity);
    windows_apart C C2.
Qed.

Lemma half_ms_is_zero_not_one :
  check_pluse_time_dflt 0.5 TIME_ZERO_HIGH = true
  /\ check_pluse_time_dflt 0.5 TIME_ONE_HIGH = false.
Proof.
  split; [reflexivity|].
  apply (timing_classes_exclusive 0.5 TIME_ZERO_HIGH TIME_ONE_HIGH).
  - right. right. right. left. reflexivity.
  - right. right. right. right. left. reflexivity.
  - intros E. apply (f_equal (fun x => (x <=? 1)%float)) in E.
    vm_compute in E. discriminate.
  - reflexivity.
Defined.

(** ** How [decode] ends

    The reads leave every field alone but the position, the span and
    the annotations; only the steps of [decode] change the state, the
    payload, the start code, the checksum flag and the counters. *)

(** The fields no read touches. *)
Definition core (d : Decoder) :=
  (state d, datas d, datas_anchors d, start_code d, checksum_invalid d,
   (total d, pass_num d, fail_num d),
   (is_statistic d, target_data d, samplerate d, interval_ms d)).

(** [outcomes m Q N E d]: run from [d], [m] returns in [Q], runs out of
    samples in [N], or raises in [E]. *)
Definition outcomes {A} (m : M A) (Q : A -> Decoder -> Prop)
  (N : Decoder -> Prop) (E : exn -> Decoder -> Prop) (d : Decoder) : Prop :=
  match m d with
  | Ret a d' => Q a d'
  | Eoi d' => N d'
  | Exc e d' => E e d'
  end.

Lemma outcomes_bind {A B} (m : M A) (k : A -> M B) Q N E d :
  outcomes m (fun a d' => outcomes (k a) Q N E d') N E d ->
  outcomes (bind m k) Q N E d.
Proof. unfold outcomes, bind. destruct (m d); auto. Qed.

Lemma outcomes_mono {A} (m : M A) (Q Q' : A -> Decoder -> Prop)
  (N N' : Decoder -> Prop) (E E' : exn -> Decoder -> Prop) d :
  outcomes m Q N E d ->
  (forall a d', Q a d' -> Q' a d') -> (forall d', N d' -> N' d') ->
  (forall e d', E e d' -> E' e d') ->
  outcomes m Q' N' E' d.
Proof. unfold outcomes. destruct (m d); auto. Qed.

(** A read: it returns or runs out of samples with the core as it was,
    and never raises. *)
Definition reads {A} (m : M A) (P : A -> Prop) (d : Decoder) : Prop :=
  outcomes m (fun a d' => core d' = core d /\ P a)
    (fun d' => core d' = core d) (fun _ _ => False) d.

(** [m] leaves the core alone, however it ends. *)
Definition keeps {A} (m : M A) : Prop :=
  forall d, core (outcome_state (m d)) = core d.

Lemma keeps_bind {A B} (m : M A) (k : A -> M B) :
  keeps m -> (forall a, keeps (k a)) -> keeps (bind m k).
Proof.
  unfold keeps, bind. intros Hm Hk d. specialize (Hm d).
  destruct (m d) as [a d1|d1|e d1]; cbn [outcome_state] in *;
    [rewrite Hk|..]; assumption.
Qed.

Lemma keeps_ret {A} (a : A) : keeps (ret a).
Proof. intros d. reflexivity. Qed.

Lemma keeps_gets {A} (f : Decoder -> A) : keeps (gets f).
Proof. intros d. reflexivity. Qed.

Lemma keeps_lift {A} (r : exn + A) : keeps (lift r).
Proof. intros d. destruct r; reflexivity. Qed.

Lemma keeps_local {A} (x : option A) : keeps (local x).
Proof. intros d. destruct x; reflexivity. Qed.

Lemma keeps_modify f :
  (forall d, core (f d) = core d) -> keeps (modify f).
Proof. intros H d. apply H. Qed.

Lemma keeps_wait c : keeps (wait c).
Proof.
  intros d. unfold wait. destruct (source_wait c (src d)) as [[n s]|];
    reflexivity.
Qed.

Lemma keeps_put_label a data : keeps (put_label a data).
Proof. intros d. reflexivity. Qed.

Lemma keeps_put_debug data : keeps (put_debug data).
Proof. intros d. reflexivity. Qed.

Lemma keeps_for_each {S} (body : Z -> S -> M S) :
  (forall i s, keeps (body i s)) ->
  forall idxs s, keeps (for_each idxs body s).
Proof.
  intros H idxs. induction idxs as [|i idxs IH]; intros s.
  - apply keeps_ret.
  - cbn [for_each]. apply keeps_bind; [apply H|exact IH].
Qed.

Ltac keeps_step :=
  first
    [ apply keeps_ret | apply keeps_gets | apply keeps_lift
    | apply keeps_local | apply keeps_wait | apply keeps_put_label
    | apply keeps_put_debug
    | apply keeps_modify; intros ?; reflexivity
    | apply keeps_bind; [|intros ?]
    | match goal with
      | |- keeps (let '(_, _) := ?x in _) => destruct x
      | |- keeps (if ?c then _ else _) => destruct c
      end ].

Lemma keeps_read_logic_level : keeps read_logic_level.
Proof. unfold read_logic_level, calc_pluse_time. repeat keeps_step. Qed.

Lemma keeps_read_byte : keeps read_byte.
Proof.
  unfold read_byte. apply keeps_bind.
  - apply keeps_for_each. intros i s. unfold read_byte_body.
    apply keeps_bind; [apply keeps_read_logic_level|].
    intros [v a]. repeat keeps_step.
  - intros l. repeat keeps_step.
Qed.

(** A byte as [read_byte] returns it. *)
Definition byte_or_invalid (v : pyobj) : Prop :=
  (exists x, v = Bytes [x]) \/ v = Int (-1).

Lemma read_byte_reads d :
  reads read_byte (fun r => byte_or_invalid (fst r)) d.
Proof.
  pose proof (keeps_read_byte d) as K. unfold reads, outcomes.
  destruct (next_byte (interval_ms d) (src d)) as [[[[v a] anns] s']|] eqn:E.
  - rewrite (read_byte_run _ _ _ _ _ E) in *. cbn [outcome_state] in K.
    split; [exact K|]. exact (next_byte_value _ _ _ _ _ _ E).
  - unfold next_byte in E.
    destruct (next_symbols 8 (interval_ms d) (src d))
      as [[[|y syms] s2]|] eqn:E8.
    + apply next_symbols_length in E8. discriminate.
    + discriminate.
    + destruct (read_byte_eoi d E8) as [d' E']. rewrite E' in *. exact K.
Qed.

Lemma is_preamble_reads d : reads is_preamble (fun _ => True) d.
Proof.
  unfold reads, outcomes, is_preamble, bind, wait, gets, modify,
    calc_pluse_time, put_debug, ret.
  destruct (source_wait Falling (src d)) as [[a src1]|]; cbn; [|reflexivity].
  destruct (source_wait Rising src1) as [[b src2]|]; cbn; [|reflexivity].
  destruct (source_wait Falling src2) as [[c src3]|]; cbn; [|reflexivity].
  match goal with
  | |- context [if ?c then _ else _] => destruct c
  end; split; reflexivity.
Qed.

Lemma wait_reads c d : reads (wait c) (fun _ => True) d.
Proof.
  unfold reads, outcomes, wait.
  destruct (source_wait c (src d)) as [[n s]|]; [split|]; reflexivity.
Qed.

Lemma core_fields d d' :
  core d' = core d ->
  state d' = state d /\ datas d' = datas d
  /\ datas_anchors d' = datas_anchors d /\ start_code d' = start_code d
  /\ checksum_invalid d' = checksum_invalid d
  /\ total d' = total d /\ pass_num d' = pass_num d
  /\ fail_num d' = fail_num d
  /\ is_statistic d' = is_statistic d /\ target_data d' = target_data d
  /\ samplerate d' = samplerate d /\ interval_ms d' = interval_ms d.
Proof. unfold core. intros H. inversion H. repeat split; assumption. Qed.

Ltac orun1 :=
  cbv beta delta [bind gets modify ret raise lift local put_label put
                  outcomes];
  cbn [state ss es datas start_code checksum_invalid datas_anchors total
       pass_num fail_num is_statistic samplerate samplenum interval_ms
       target_data src out
       set_state set_ss set_es set_datas set_start_code set_checksum_invalid
       set_datas_anchors set_total set_pass_num set_fail_num set_is_statistic
       set_samplenum set_interval_ms set_src set_out
       fst snd].

Ltac orun := repeat (progress orun1).

(** ** The invariant of the counters *)

(** The counters agree: with statistics on every completed packet
    passed or failed, with statistics off none did. *)
Definition counted (d : Decoder) : Prop :=
  0 <= pass_num d /\ 0 <= fail_num d /\ 0 <= total d
  /\ pass_num d + fail_num d = if is_statistic d then total d else 0.

(** The locals the summary needs are assigned. *)
Definition assigned (l : Locals) : Prop :=
  preable_anchor l <> None /\ anchor l <> None.

Definition sound (l : Locals) (d : Decoder) : Prop :=
  counted d
  /\ Forall (fun v => exists x, v = Bytes [x]) (datas d)
  /\ match state d with
     | IDLE => True
     | PREAMBLE => assigned l
     | _ => assigned l /\ byte_or_invalid (start_code d)
     end.

(** The options do not change. *)
Definition fixed (d d' : Decoder) : Prop :=
  is_statistic d' = is_statistic d /\ target_data d' = target_data d.

(** The two ways a step raises: both at the end of a packet, with
    statistics on, after [total] was incremented and before the packet
    was counted as passed or failed. *)
Definition failure (e : exn) (d : Decoder) : Prop :=
  state d = SUM /\ is_statistic d = true
  /\ 0 <= pass_num d /\ 0 <= fail_num d
  /\ total d = pass_num d + fail_num d + 1
  /\ ((e = OverflowError
       /\ int_to_bytes (target_data d) 4 = inl OverflowError)
      \/ (e = TypeError /\ start_code d = Int (-1)
          /\ checksum_invalid d = true
          /\ exists bs, bytes_join (datas d) = inr bs
                        /\ int_to_bytes (target_data d) 4 = inr bs)).

Definition step_ok (d : Decoder) (l' : Locals) (d' : Decoder) : Prop :=
  sound l' d' /\ fixed d d'.

Definition step_end (d d' : Decoder) : Prop := counted d' /\ fixed d d'.

Definition step_exc (d : Decoder) (e : exn) (d' : Decoder) : Prop :=
  failure e d' /\ fixed d d'.

Ltac fields K :=
  apply core_fields in K;
  destruct K as (Kst & Kda & Kan & Ksc & Kci & Kto & Kpa & Kfa & Kis & Ktd
                 & Ksr & Kiv).

Ltac carry :=
  repeat match goal with
         | H : ?f ?a = ?f ?b |- _ => rewrite H
         end.

Ltac kept :=
  unfold step_ok, step_end, step_exc, sound, counted, fixed, assigned, core;
  orun; carry.

Lemma idle_step l d :
  sound l d -> state d = IDLE ->
  outcomes (decode_step l) (step_ok d) (step_end d) (step_exc d) d.
Proof.
  intros (C & D & _) St. unfold outcomes. rewrite decode_step_unfold, St.
  fold (outcomes (A:=Locals)). apply outcomes_bind.
  eapply outcomes_mono; [apply is_preamble_reads| | |].
  - intros [v a] d1 [K _]. fields K.
    destruct (truthy v); kept;
      (split; [split; [exact C|split; [exact D|]]|split; reflexivity]);
      split; discriminate.
  - intros d1 K. fields K. kept. split; [exact C|split; reflexivity].
  - intros e d1 [].
Qed.

Lemma is_start_outcomes d :
  outcomes is_start
    (fun _ d' => core (set_start_code (Int 0) d')
                 = core (set_start_code (Int 0) d)
                 /\ byte_or_invalid (start_code d'))
    (fun d' => core d' = core d) (fun _ _ => False) d.
Proof.
  unfold is_start. apply outcomes_bind.
  eapply outcomes_mono; [apply read_byte_reads| | |].
  - intros [v a] d1 [K B]. fields K. cbn [fst] in B.
    destruct B as [[x B]|B]; subst v.
    + cbn [ne_minus1 int_from_bytes pyobj_hex]. orun.
      destruct (from_bytes_big [x] =? START_CODE); orun;
        (split; [kept; reflexivity|left; exists x; reflexivity]).
    + change (ne_minus1 (Int (-1))) with false. orun.
      split; [kept; reflexivity|right; reflexivity].
  - intros d1 K. exact K.
  - intros e d1 [].
Qed.

Lemma preamble_step l d :
  sound l d -> state d = PREAMBLE ->
  outcomes (decode_step l) (step_ok d) (step_end d) (step_exc d) d.
Proof.
  intros (C & D & A) St. rewrite St in A.
  unfold outcomes. rewrite decode_step_unfold, St.
  fold (outcomes (A:=Locals)). apply outcomes_bind.
  eapply outcomes_mono; [apply is_start_outcomes| | |].
  - intros _ d1 [K B]. fields K. cbn [state datas total pass_num fail_num
      is_statistic target_data set_start_code] in *.
    kept. repeat split; try apply C; try apply A; assumption.
  - intros d1 K. fields K. kept. split; [exact C|split; reflexivity].
  - intros e d1 [].
Qed.

(** A payload slot changes the payload list and its anchors only. *)
Definition payload_only (d d' : Decoder) : Prop :=
  core (set_datas_anchors [] (set_datas [] d'))
  = core (set_datas_anchors [] (set_datas [] d))
  /\ (Forall (fun v => exists x, v = Bytes [x]) (datas d) ->
      Forall (fun v => exists x, v = Bytes [x]) (datas d')).

Lemma payload_only_refl d : payload_only d d.
Proof. split; [reflexivity|auto]. Qed.

Lemma payload_only_trans d1 d2 d3 :
  payload_only d1 d2 -> payload_only d2 d3 -> payload_only d1 d3.
Proof.
  intros [K1 F1] [K2 F2]. split; [rewrite K2; exact K1|auto].
Qed.

Lemma core_payload_only d d' : core d' = core d -> payload_only d d'.
Proof.
  intros K. fields K. split; [kept; reflexivity|].
  carry. auto.
Qed.

Lemma data_body_outcomes d0 i l d :
  payload_only d0 d ->
  outcomes (data_body i l)
    (fun l' d' => (exists a, l' = slot_locals i a l) /\ payload_only d0 d')
    (payload_only d0) (fun _ _ => False) d.
Proof.
  intros P0. unfold data_body. apply outcomes_bind.
  eapply outcomes_mono; [apply read_byte_reads| | |].
  - intros [v a] d1 [K B]. cbn [fst] in B.
    assert (P1 : payload_only d0 d1).
    { eapply payload_only_trans; [exact P0|].
      apply core_payload_only. exact K. }
    destruct B as [[x B]|B]; subst v.
    + cbn [ne_minus1 pyobj_hex]. orun.
      assert (P2 : forall txt c,
        payload_only d0
          (set_ss (es d1)
             (set_out (out d1 ++ [{| a_ss := fst a; a_es := snd a;
                                     a_cls := c; a_text := txt |}])
                (set_datas_anchors (datas_anchors d1 ++ [a])
                   (set_datas (datas d1 ++ [Bytes [x]]) d1))))).
      { intros txt c. eapply payload_only_trans; [exact P1|].
        split; [reflexivity|]. orun. intros F. apply Forall_app.
        split; [exact F|]. constructor; [exists x; reflexivity|constructor]. }
      destruct (i =? 0) eqn:Ei; orun;
        (split; [exists a; unfold slot_locals; rewrite Ei; reflexivity|]);
        destruct a; apply P2.
    + change (ne_minus1 (Int (-1))) with false. orun.
      split; [exists a; reflexivity|exact P1].
  - intros d1 K. eapply payload_only_trans; [exact P0|].
    apply core_payload_only. exact K.
  - intros e d1 [].
Qed.

Lemma outcomes_for_each_cons {S} i idxs (body : Z -> S -> M S) s Q N E d :
  outcomes (body i s) (fun s' d' => outcomes (for_each idxs body s') Q N E d')
    N E d ->
  outcomes (for_each (i :: idxs) body s) Q N E d.
Proof. intros H. cbn [for_each]. apply outcomes_bind. exact H. Qed.

Ltac payload_slot d0 Hend :=
  apply outcomes_for_each_cons;
  eapply outcomes_mono;
  [ apply (data_body_outcomes d0); eassumption
  | let l := fresh "l" in
    let d := fresh "d" in
    let a := fresh "a" in
    let L := fresh "L" in
    let P := fresh "P" in
    cbv beta; intros l d ((a & L) & P); subst l
  | cbv beta; intros ? ?; apply Hend; assumption
  | cbv beta; intros ? ? [] ].

Ltac fields_in K :=
  fields K;
  cbn [state datas start_code checksum_invalid datas_anchors total
       pass_num fail_num is_statistic samplerate interval_ms target_data
       set_state set_ss set_es set_datas set_start_code set_checksum_invalid
       set_datas_anchors set_total set_pass_num set_fail_num set_is_statistic
       set_samplenum set_interval_ms set_src set_out] in *.

Lemma start_step l d :
  sound l d -> state d = START ->
  outcomes (decode_step l) (step_ok d) (step_end d) (step_exc d) d.
Proof.
  intros (C & D & A) St. rewrite St in A. destruct A as [[A1 A2] B].
  unfold outcomes. rewrite decode_step_unfold, St.
  fold (outcomes (A:=Locals)).
  assert (Hkeep : forall d',
    payload_only (set_datas_anchors [] (set_datas [] d)) d' ->
    counted d' /\ fixed d d' /\ start_code d' = start_code d
    /\ Forall (fun v => exists x, v = Bytes [x]) (datas d')).
  { intros d' [K F]. fields_in K. unfold counted, fixed. carry.
    repeat split; try apply C. apply F. constructor. }
  assert (P0 : payload_only (set_datas_anchors [] (set_datas [] d))
                 (set_datas_anchors [] (set_datas [] d)))
    by apply payload_only_refl.
  set (d0 := set_datas_anchors [] (set_datas [] d)) in P0 at 2 |- * at 1.
  assert (Hend : forall d',
    payload_only (set_datas_anchors [] (set_datas [] d)) d' -> step_end d d').
  { intros d' P. destruct (Hkeep d' P) as (C' & F' & _). split; assumption. }
  clearbody d0.
  apply outcomes_bind. change (range 4) with [0; 1; 2; 3].
  do 4 (payload_slot (set_datas_anchors [] (set_datas [] d)) Hend).
  cbn [for_each]. unfold ret at 1. unfold outcomes at 1.
  fold (outcomes (A:=Locals)).
  set (l4 := slot_locals 3 a2 _).
  assert (Hs : d_label_start l4 = Some (fst a)) by reflexivity.
  assert (He : d_label_end l4 = Some (snd a2)) by reflexivity.
  assert (Hp : preable_anchor l4 = preable_anchor l) by reflexivity.
  assert (Ha : anchor l4 = Some a2) by reflexivity.
  clearbody l4.
  unfold outcomes, bind. rewrite Hs, He. cbn [local ret]. orun.
  destruct (Hkeep _ P3) as ((C1 & C2 & C3 & C4) & (F1 & F2) & S' & D').
  unfold step_ok, sound, counted, fixed, assigned. orun.
  rewrite Hp, Ha, S'.
  repeat split; try assumption. discriminate.
Qed.

Lemma data_step l d :
  sound l d -> state d = DATA ->
  outcomes (decode_step l) (step_ok d) (step_end d) (step_exc d) d.
Proof.
  intros (C & D & A) St. rewrite St in A. destruct A as [[A1 A2] B].
  unfold outcomes. rewrite decode_step_unfold, St.
  fold (outcomes (A:=Locals)). apply outcomes_bind.
  eapply outcomes_mono; [apply read_byte_reads| | |].
  - intros [v a] d1 [K V]. fields K. cbn [fst] in V.
    destruct V as [[x V]|V]; subst v.
    + cbn [ne_minus1 int_from_bytes pyobj_hex]. orun.
      destruct (check_sum8 (datas d1) =? from_bytes_big [x]); kept;
        cbn [anchor preable_anchor];
        repeat split; try apply C; try assumption; try reflexivity; discriminate.
    + change (ne_minus1 (Int (-1))) with false. kept. cbn [anchor preable_anchor].
      repeat split; try apply C; try assumption; try reflexivity; discriminate.
  - intros d1 K. fields K. kept. split; [exact C|split; reflexivity].
  - intros e d1 [].
Qed.

Lemma bytes_join_bytes ds :
  Forall (fun v => exists x, v = Bytes [x]) ds ->
  exists bs, bytes_join ds = inr bs.
Proof.
  induction 1 as [|v ds [x Hv] _ [bs IH]]; [exists []; reflexivity|].
  subst v. cbn [bytes_join]. rewrite IH. eexists; reflexivity.
Qed.

Lemma int_to_bytes_error n len e :
  int_to_bytes n len = inl e -> e = OverflowError.
Proof.
  unfold int_to_bytes. destruct (_ || _); [|discriminate].
  intros H. inversion H. reflexivity.
Qed.

Lemma sum_step l d :
  sound l d -> state d = SUM ->
  outcomes (decode_step l) (step_ok d) (step_end d) (step_exc d) d.
Proof.
  intros (C & D & A) St. rewrite St in A. destruct A as [[A1 A2] B].
  destruct C as (C1 & C2 & C3 & C4).
  unfold outcomes. rewrite decode_step_unfold, St.
  fold (outcomes (A:=Locals)). apply outcomes_bind.
  eapply outcomes_mono; [apply wait_reads| | |].
  - intros _ d1 [K _]. fields K. orun.
    rewrite <- Kis in C4. rewrite <- Kda in D. rewrite <- Ksc in B.
    rewrite <- Kpa in C1, C4. rewrite <- Kfa in C2, C4.
    rewrite <- Kto in C3, C4. rewrite <- Kst in St.
    destruct (is_statistic d1) eqn:Hs; orun.
    2:{ unfold step_ok, sound, counted, fixed. orun. rewrite Hs.
        repeat split; try assumption; try lia; try (symmetry; assumption);
        try (rewrite Hs; exact Kis). }
    destruct (bytes_join_bytes (datas d1) D) as [rb Hj].
    rewrite Hj. orun.
    destruct (int_to_bytes (target_data d1) 4) as [ex|tb] eqn:Ht; orun.
    { apply int_to_bytes_error in Ht as Hex. subst ex.
      unfold step_exc, failure, fixed. orun.
      repeat split; try assumption; try lia; try (symmetry; assumption);
        try (rewrite Hs; exact Kis).
      left. split; [reflexivity|exact Ht]. }
    assert (Hz : (total d1 + 1 =? 0) = false) by (apply Z.eqb_neq; lia).
    destruct (preable_anchor l) as [pa|]; [|contradiction].
    destruct (anchor l) as [an|]; [|contradiction].
    assert (Hfin : forall d',
      state d' = IDLE -> total d' = total d1 + 1 ->
      0 <= pass_num d' -> 0 <= fail_num d' ->
      pass_num d' + fail_num d' = total d1 + 1 ->
      datas d' = datas d1 -> is_statistic d' = true ->
      target_data d' = target_data d1 ->
      step_ok d l d').
    { intros d' E1 E2 E3 E4 E5 E6 E7 E8.
      unfold step_ok, sound, counted, fixed. rewrite E1, E2, E6, E7, E8.
      repeat split; try assumption; try lia; symmetry; assumption. }
    destruct (list_eq_dec Z.eq_dec rb tb) as [Eq|Ne]; orun.
    2:{ rewrite Hz. orun. apply Hfin; orun; try reflexivity; try lia;
          assumption. }
    destruct (checksum_invalid d1) eqn:Hc; orun.
    2:{ rewrite Hz. orun. apply Hfin; orun; try reflexivity; try lia;
          assumption. }
    destruct B as [[x B]|B]; rewrite B; cbn [int_from_bytes]; orun.
    + destruct (from_bytes_big [x] =? START_CODE); orun; rewrite Hz; orun;
        apply Hfin; orun; try reflexivity; try lia; assumption.
    + unfold step_exc, failure, fixed. orun.
      repeat split; try assumption; try lia; try (symmetry; assumption);
        try (rewrite Hs; exact Kis).
      right. split; [reflexivity|]. split; [exact B|].
      split; [exact Hc|]. exists rb. subst tb. split; assumption.
  - intros d1 K. fields K. unfold step_end, counted, fixed. carry.
    repeat split; assumption.
  - intros e d1 [].
Qed.

Lemma decode_step_outcomes l d :
  sound l d ->
  outcomes (decode_step l) (step_ok d) (step_end d) (step_exc d) d.
Proof.
  intros H. destruct (state d) eqn:St.
  - apply idle_step; assumption.
  - apply preamble_step; assumption.
  - apply start_step; assumption.
  - apply data_step; assumption.
  - apply sum_step; assumption.
Qed.

Lemma fixed_trans d1 d2 d3 : fixed d1 d2 -> fixed d2 d3 -> fixed d1 d3.
Proof. intros [A1 A2] [B1 B2]. split; congruence. Qed.

Lemma decode_loop_outcomes n : forall l d,
  sound l d ->
  outcomes (decode_loop n l) (step_ok d) (step_end d) (step_exc d) d.
Proof.
  induction n as [|n IH]; intros l d H.
  - unfold outcomes. cbn [decode_loop ret]. split; [exact H|split; reflexivity].
  - cbn [decode_loop]. apply outcomes_bind.
    eapply outcomes_mono; [apply decode_step_outcomes; exact H| | |].
    + intros l1 d1 [H1 F1]. cbv beta.
      eapply outcomes_mono; [apply IH; exact H1| | |].
      * intros l2 d2 [H2 F2]. split; [exact H2|].
        eapply fixed_trans; eassumption.
      * intros d2 [H2 F2]. split; [exact H2|].
        eapply fixed_trans; eassumption.
      * intros e d2 [H2 F2]. split; [exact H2|].
        eapply fixed_trans; eassumption.
    + auto.
    + auto.
Qed.

(** A decoder on which [decode] has not run. *)
Definition fresh (d : Decoder) : Prop :=
  state d = IDLE /\ datas d = []
  /\ total d = 0 /\ pass_num d = 0 /\ fail_num d = 0.

Lemma decode_outcomes d :
  fresh d ->
  outcomes decode (fun _ _ => True)
    (fun d' => counted d'
               /\ is_statistic d' = negb (target_data d =? 0))
    (fun e d' =>
       (samplerate d = None /\ e = AttributeError /\ d' = d)
       \/ (samplerate d = Some 0 /\ e = SamplerateError /\ d' = d)
       \/ (failure e d' /\ target_data d' = target_data d
           /\ target_data d <> 0)) d.
Proof.
  intros (F1 & F2 & F3 & F4 & F5).
  unfold outcomes, decode, decode_init, bind at 1, bind at 1, gets at 1.
  destruct (samplerate d) as [r|] eqn:Hr; [|left; repeat split].
  unfold truthy. destruct (Z.eqb_spec r 0) as [R0|R0]; cbn [negb].
  { right. left. subst r. repeat split. }
  orun.
  set (d1 := set_is_statistic _ _).
  assert (S1 : sound no_locals d1).
  { unfold sound, counted. subst d1. orun. rewrite F1, F2, F3, F4, F5.
    repeat split; try lia; [destruct (target_data d =? 0); reflexivity|].
    constructor. }
  assert (I1 : is_statistic d1 = negb (target_data d =? 0)).
  { subst d1. orun. destruct (target_data d =? 0); reflexivity. }
  assert (T1 : target_data d1 = target_data d) by reflexivity.
  clearbody d1.
  pose proof (decode_loop_outcomes (S (List.length (rest (src d))))
                no_locals d1 S1) as O.
  unfold outcomes in O.
  destruct (decode_loop _ _ d1) as [l2 d2|d2|e d2].
  - exact I.
  - destruct O as [C2 [Fi Ft]]. split; [exact C2|]. rewrite Fi. exact I1.
  - destruct O as [C2 [Fi Ft]]. right. right. split; [exact C2|].
    split; [rewrite Ft; exact T1|].
    destruct C2 as (_ & Hs & _). rewrite Fi, I1 in Hs.
    intros Z0. rewrite Z0 in Hs. discriminate.
Qed.

Lemma new_decoder_fresh rate target samples :
  fresh (new_decoder rate target samples).
Proof. repeat split. Qed.

Lemma bytes_join_single xs :
  bytes_join (map (fun x => Bytes [x]) xs) = inr xs.
Proof.
  induction xs as [|x xs IH]; [reflexivity|].
  cbn [map bytes_join]. rewrite IH. reflexivity.
Qed.

Lemma int_to_bytes_4 td tb :
  int_to_bytes td 4 = inr tb ->
  0 <= td < 2 ^ 32
  /\ tb = [td / 16777216 mod 256; td / 65536 mod 256; td / 256 mod 256;
           td mod 256].
Proof.
  unfold int_to_bytes.
  change (256 ^ Z.of_nat 4) with 4294967296.
  change (2 ^ 32) with 4294967296.
  destruct (Z.ltb_spec td 0); [discriminate|].
  destruct (Z.leb_spec 4294967296 td); [discriminate|].
  cbn [orb to_bytes_rev rev app]. intros E. inversion E; subst tb; clear E.
  split; [lia|].
  rewrite !Z.div_div by lia. reflexivity.
Qed.

Lemma int_to_bytes_overflow n :
  int_to_bytes n 4 = inl OverflowError <-> ~ 0 <= n < 2 ^ 32.
Proof.
  unfold int_to_bytes. change (256 ^ Z.of_nat 4) with (2 ^ 32).
  destruct (Z.ltb_spec n 0), (Z.leb_spec (2 ^ 32) n); cbn [orb];
    split; intros X; try reflexivity; try lia; try discriminate.
Qed.

Lemma decode_raises d rate target e d' :
  samplerate d = rate -> target_data d = target -> fresh d ->
  decode d = Exc e d' ->
  (rate = None /\ e = AttributeError /\ d' = d)
  \/ (rate = Some 0 /\ e = SamplerateError /\ d' = d)
  \/ (target <> 0 /\ state d' = SUM
      /\ total d' = pass_num d' + fail_num d' + 1
      /\ ((e = OverflowError /\ ~ 0 <= target < 2 ^ 32)
          \/ (e = TypeError /\ 0 <= target < 2 ^ 32
              /\ start_code d' = Int (-1)
              /\ checksum_invalid d' = true
              /\ bytes_join (datas d') = int_to_bytes target 4))).
Proof.
  intros Hr Htd F H.
  pose proof (decode_outcomes d F) as O.
  unfold outcomes in O. rewrite H, Hr, Htd in O.
  destruct O as [O|[O|[(St & Hs & P & Fl & T & O) [Ht N]]]];
    [left; exact O|right; left; exact O|].
  right. right. rewrite Ht in O.
  split; [exact N|]. split; [exact St|]. split; [exact T|].
  destruct O as [[E O]|(E & Sc & Ci & bs & J & B)].
  - left. split; [exact E|]. apply int_to_bytes_overflow. exact O.
  - right. split; [exact E|]. split.
    + destruct (int_to_bytes_4 _ _ B) as [R _]. exact R.
    + split; [exact Sc|]. split; [exact Ci|]. rewrite J, B. reflexivity.
Qed.

Lemma decode_ends d target d' :
  target_data d = target -> fresh d ->
  decode d = Eoi d' ->
  0 <= pass_num d' /\ 0 <= fail_num d' /\ 0 <= total d'
  /\ (target = 0 -> pass_num d' = 0 /\ fail_num d' = 0)
  /\ (target <> 0 -> total d' = pass_num d' + fail_num d').
Proof.
  intros Htd F H.
  pose proof (decode_outcomes d F) as O.
  unfold outcomes in O. rewrite H, Htd in O.
  destruct O as [(C1 & C2 & C3 & C4) Hs]. rewrite Hs in C4.
  split; [exact C1|]. split; [exact C2|]. split; [exact C3|].
  split; intros T.
  - rewrite T in C4. cbn in C4. lia.
  - destruct (Z.eqb_spec target 0) as [E|_]; [contradiction|].
    cbn in C4. lia.
Qed.

(** X8.  How a session can fail.  [decode] raises only in three
    cases: the sample rate was never set (AttributeError) or is 0
    (SamplerateError), and then the decoder is left as it was created,
    nothing read and nothing put; or, with statistics on (a target
    other than 0), at the end of a packet, after [total] was
    incremented and before the packet was counted: OverflowError when
    the target does not fit four bytes, TypeError when the start byte
    did not decode while the payload equals the target and the stored
    checksum flag is set.  The flag is the one [checksum_invalid]
    holds at that moment: set by this packet's checksum byte when it
    decoded, left by an earlier packet when it did not.  With the
    target 0 and a sample rate, [decode] never raises. *)
Theorem decode_failure_modes rate target samples e d' :
  decode (new_decoder rate target samples) = Exc e d' ->
  (rate = None /\ e = AttributeError
   /\ d' = new_decoder rate target samples)
  \/ (rate = Some 0 /\ e = SamplerateError
      /\ d' = new_decoder rate target samples)
  \/ (target <> 0 /\ state d' = SUM
      /\ total d' = pass_num d' + fail_num d' + 1
      /\ ((e = OverflowError /\ ~ 0 <= target < 2 ^ 32)
          \/ (e = TypeError /\ 0 <= target < 2 ^ 32
              /\ start_code d' = Int (-1)
              /\ checksum_invalid d' = true
              /\ bytes_join (datas d') = int_to_bytes target 4))).
Proof.
  exact (decode_raises (new_decoder rate target samples) rate target e d'
           eq_refl eq_refl (new_decoder_fresh rate target samples)).
Qed.

(** A session that ends with TypeError: statistics on, the start byte with
    one invalid symbol, payload and checksum as the target wants. *)
Definition bad_start_end : Decoder :=
  outcome_state (decode (new_decoder (Some 25000) target_1234
                           bad_start_packet)).

Lemma decode_fails_on_bad_start :
  decode (new_decoder (Some 25000) target_1234 bad_start_packet)
  = Exc TypeError bad_start_end
  /\ ((Some 25000 = None /\ TypeError = AttributeError
       /\ bad_start_end
          = new_decoder (Some 25000) target_1234 bad_start_packet)
      \/ (Some 25000 = Some 0 /\ TypeError = SamplerateError
          /\ bad_start_end
             = new_decoder (Some 25000) target_1234 bad_start_packet)
      \/ (target_1234 <> 0 /\ state bad_start_end = SUM
          /\ total bad_start_end
             = pass_num bad_start_end + fail_num bad_start_end + 1
          /\ ((TypeError = OverflowError /\ ~ 0 <= target_1234 < 2 ^ 32)
              \/ (TypeError = TypeError /\ 0 <= target_1234 < 2 ^ 32
                  /\ start_code bad_start_end = Int (-1)
                  /\ checksum_invalid bad_start_end = true
                  /\ bytes_join (datas bad_start_end)
                     = int_to_bytes target_1234 4)))).
Proof.
  assert (H : decode (new_decoder (Some 25000) target_1234 bad_start_packet)
              = Exc TypeError bad_start_end) by (vm_compute; reflexivity).
  split; [exact H|].
  exact (decode_failure_modes _ _ _ _ _ H).
Defined.

(** X9.  The counters of a session that ran to the end of its input:
    with statistics off (target 0) no packet is counted as passed or
    failed; with statistics on every completed packet was counted
    exactly once, as passed or as failed. *)
Theorem decode_counters rate target samples d' :
  decode (new_decoder rate target samples) = Eoi d' ->
  0 <= pass_num d' /\ 0 <= fail_num d' /\ 0 <= total d'
  /\ (target = 0 -> pass_num d' = 0 /\ fail_num d' = 0)
  /\ (target <> 0 -> total d' = pass_num d' + fail_num d').
Proof.
  exact (decode_ends (new_decoder rate target samples) target d'
           eq_refl (new_decoder_fresh rate target samples)).
Qed.

(** The end of the session on one good packet with statistics on. *)
Definition good_packet_end : Decoder :=
  outcome_state (decode (new_decoder (Some 25000) target_1234 good_packet)).

Lemma decode_counts_good_packet :
  decode (new_decoder (Some 25000) target_1234 good_packet)
  = Eoi good_packet_end
  /\ 0 <= pass_num good_packet_end /\ 0 <= fail_num good_packet_end
  /\ 0 <= total good_packet_end
  /\ (target_1234 = 0 ->
      pass_num good_packet_end = 0 /\ fail_num good_packet_end = 0)
  /\ (target_1234 <> 0 ->
      total good_packet_end
      = pass_num good_packet_end + fail_num good_packet_end).
Proof.
  assert (H : decode (new_decoder (Some 25000) target_1234 good_packet)
              = Eoi good_packet_end) by (vm_compute; reflexivity).
  split; [exact H|].
  exact (decode_counters _ _ _ _ H).
Defined.


(** ** When a packet passes *)

Lemma payload_matches_target td tb xs :
  int_to_bytes td 4 = inr tb ->
  Forall (fun x => 0 <= x < 256) xs ->
  (xs = tb <-> List.length xs = 4%nat /\ from_bytes_big xs = td).
Proof.
  intros Ht Hx.
  apply int_to_bytes_4 in Ht. destruct Ht as [R Ht]. subst tb.
  change (2 ^ 32) with 4294967296 in R.
  split.
  - intros E. subst xs. split; [reflexivity|].
    unfold from_bytes_big. cbn [fold_left].
    Z.div_mod_to_equations. lia.
  - intros [L V].
    destruct xs as [|a [|b [|c [|e [|]]]]]; try discriminate.
    unfold from_bytes_big in V. cbn [fold_left] in V.
    inversion Hx as [|? ? Ha Hx1]; subst.
    inversion Hx1 as [|? ? Hb Hx2]; subst.
    inversion Hx2 as [|? ? Hc Hx3]; subst.
    inversion Hx3 as [|? ? He _]; subst.
    repeat f_equal; Z.div_mod_to_equations; lia.
Qed.

(** The verdict of the statistics at the end of a packet, from the
    payload bytes [xs], the start byte [sc] and the checksum flag as
    stored in [d]. *)
Definition verdict (d : Decoder) (xs sc : list Z) : bool :=
  (List.length xs =? 4)%nat && (from_bytes_big xs =? target_data d)
  && checksum_invalid d && (from_bytes_big sc =? START_CODE).

Lemma verdict_passes d xs tb sc :
  int_to_bytes (target_data d) 4 = inr tb ->
  Forall (fun x => 0 <= x < 256) xs ->
  packet_passes xs tb (checksum_invalid d) sc = verdict d xs sc.
Proof.
  intros Ht Hx. unfold packet_passes, verdict.
  pose proof (payload_matches_target _ _ _ Ht Hx) as [H1 H2].
  destruct (list_eq_dec Z.eq_dec xs tb) as [E|E].
  - destruct (H1 E) as [L V]. rewrite L, V, Z.eqb_refl. reflexivity.
  - destruct (Nat.eqb_spec (List.length xs) 4) as [L|L]; [|reflexivity].
    destruct (Z.eqb_spec (from_bytes_big xs) (target_data d)) as [V|V];
      [|reflexivity].
    exfalso. apply E, H2. split; assumption.
Qed.

(** X10.  The end of a packet with statistics on, when the start byte
    decoded and the target fits four bytes: the step counts the packet
    and returns to Idle, and the packet passes exactly when all four
    payload bytes decoded, they read big-endian as the target, the
    stored checksum flag is set and the start byte is 0x4C.  The flag
    is [checksum_invalid] as the state holds it: the comparison of this
    packet's checksum byte when that byte decoded, and otherwise the
    value an earlier packet left (false on the first packet).  A pass
    increments [pass_num] only, a fail [fail_num] only, and one summary
    with the verdict, the counters and the pass rate is put from the
    start of the preamble to the end of the checksum byte. *)
Theorem statistics_verdict l d n s xs sc pa a :
  state d = SUM ->
  source_wait Rising (src d) = Some (n, s) ->
  is_statistic d = true ->
  datas d = map (fun x => Bytes [x]) xs ->
  Forall (fun x => 0 <= x < 256) xs ->
  0 <= target_data d < 2 ^ 32 ->
  start_code d = Bytes sc ->
  preable_anchor l = Some pa ->
  anchor l = Some a ->
  0 <= total d ->
  let pass := verdict d xs sc in
  exists d',
    decode_step l d = Ret l d' /\ state d' = IDLE
    /\ total d' = total d + 1
    /\ pass_num d' = pass_num d + (if pass then 1 else 0)
    /\ fail_num d' = fail_num d + (if pass then 0 else 1)
    /\ out d' =
       out d ++
       [{| a_ss := fst pa; a_es := snd a; a_cls := Ann.DEBUG;
           a_text :=
             [FmtStat (if pass then "PASS" else "FAIL")
                (fail_num d') (total d')
                (float_of_int (pass_num d') / float_of_int (total d')
                 * 100)%float] |}].
Proof.
  intros St Hw Hs Hd Hx Ht Hsc Hpa Ha Htot pass.
  destruct (int_to_bytes (target_data d) 4) as [ex|tb] eqn:Etb.
  { pose proof (int_to_bytes_error _ _ _ Etb). subst ex.
    apply int_to_bytes_overflow in Etb. contradiction. }
  destruct (sum_step_statistics l d n s St Hw) as [_ H].
  specialize (H Hs xs tb sc pa a).
  rewrite Hd, bytes_join_single in H.
  specialize (H eq_refl Etb Hsc Hpa Ha ltac:(lia)).
  cbv zeta in H. rewrite (verdict_passes d xs tb sc Etb Hx) in H.
  exact H.
Qed.

(** The locals of [decode] at the end of the good packet. *)
Definition good_packet_locals : Locals :=
  {| anchor := Some (1615, 1886); preable_anchor := Some (2, 302);
     d_label_start := Some 599; d_label_end := Some 1614 |}.

Lemma statistics_pass_good_packet :
  exists d',
    decode_step good_packet_locals
      (outcome_state
         (decode_loop 4 no_locals (statistics_on good_packet)))
    = Ret good_packet_locals d'
    /\ state d' = IDLE /\ total d' = 1 /\ pass_num d' = 1 /\ fail_num d' = 0.
Proof.
  destruct (statistics_verdict
              good_packet_locals
              (outcome_state
                 (decode_loop 4 no_locals (statistics_on good_packet)))
              1902 {| pos := 1903; old := Some true; rest := [true] |}
              [1; 2; 3; 4] [76] (2, 302) (1615, 1886)
              ltac:(vm_compute; reflexivity) ltac:(vm_compute; reflexivity)
              ltac:(vm_compute; reflexivity) ltac:(vm_compute; reflexivity)
              ltac:(repeat constructor; lia)
              ltac:(vm_compute; split; [discriminate|reflexivity])
              ltac:(vm_compute; reflexivity) eq_refl eq_refl
              ltac:(vm_compute; discriminate))
    as (d' & R & S & T & P & F & _).
  exists d'. split; [exact R|]. split; [exact S|].
  rewrite T, P, F. vm_compute. repeat split; reflexivity.
Defined.

(** ** A packet from Idle to the checksum

    The four steps from Idle read a preamble pulse pair and then six
    bytes whatever they hold; what they leave in the state is read off
    the bytes. *)

(** The three edges [is_preamble] waits for. *)
Definition preamble_edges (s : source) : option (Z * Z * Z * source) :=
  match source_wait Falling s with
  | None => None
  | Some (s0, src1) =>
      match source_wait Rising src1 with
      | None => None
      | Some (s1, src2) =>
          match source_wait Falling src2 with
          | None => None
          | Some (s2, src3) => Some (s0, s1, s2, src3)
          end
      end
  end.

Lemma read_byte_next d :
  match next_byte (interval_ms d) (src d) with
  | Some (v, a, anns, s') =>
      exists d', read_byte d = Ret (v, a) d' /\ src d' = s'
                 /\ core d' = core d /\ byte_or_invalid v
  | None => exists d', read_byte d = Eoi d'
  end.
Proof.
  destruct (next_byte (interval_ms d) (src d)) as [[[[v a] anns] s']|] eqn:E.
  - eexists. split; [apply (read_byte_run _ _ _ _ _ E)|].
    split; [reflexivity|]. split; [reflexivity|].
    exact (next_byte_value _ _ _ _ _ _ E).
  - unfold next_byte in E.
    destruct (next_symbols 8 (interval_ms d) (src d))
      as [[[|y syms] s2]|] eqn:E8.
    + apply next_symbols_length in E8. discriminate.
    + discriminate.
    + exact (read_byte_eoi d E8).
Qed.

Ltac core_eq :=
  unfold core; orun; carry; try reflexivity.

Lemma idle_run l d :
  state d = IDLE ->
  match preamble_edges (src d) with
  | Some (s0, s1, s2, s') =>
      exists l' d',
        decode_step l d = Ret l' d' /\ src d' = s'
        /\ core d' = core (set_state PREAMBLE d)
  | None => exists d', decode_step l d = Eoi d'
  end.
Proof.
  intros St. rewrite decode_step_unfold, St.
  unfold preamble_edges, is_preamble, bind, wait, gets, modify,
    calc_pluse_time, put_debug, ret.
  destruct (source_wait Falling (src d)) as [[a src1]|]; cbn;
    [|eexists; reflexivity].
  destruct (source_wait Rising src1) as [[b src2]|]; cbn;
    [|eexists; reflexivity].
  destruct (source_wait Falling src2) as [[c src3]|]; cbn;
    [|eexists; reflexivity].
  match goal with
  | |- context [if ?c then _ else _] => destruct c
  end; cbn; eexists; eexists; repeat split; reflexivity.
Qed.

Lemma preamble_run l d :
  state d = PREAMBLE ->
  match next_byte (interval_ms d) (src d) with
  | Some (v, a, anns, s') =>
      exists d',
        decode_step l d = Ret l d' /\ src d' = s'
        /\ core d' = core (set_state START (set_start_code v d))
  | None => exists d', decode_step l d = Eoi d'
  end.
Proof.
  intros St. rewrite decode_step_unfold, St.
  pose proof (read_byte_next d) as R.
  destruct (next_byte (interval_ms d) (src d)) as [[[[v a] anns] s']|].
  2:{ destruct R as [d' R]. exists d'. unfold is_start, bind. rewrite R.
      reflexivity. }
  destruct R as (d1 & R & S1 & K & V). fields K.
  unfold is_start, bind at 1, bind at 1. rewrite R.
  destruct V as [[x V]|V]; subst v.
  - cbn [ne_minus1 int_from_bytes pyobj_hex]. orun.
    destruct (from_bytes_big [x] =? START_CODE); orun;
      (eexists; split; [reflexivity|]; split; [exact S1|]; core_eq).
  - change (ne_minus1 (Int (-1))) with false. orun.
    eexists. split; [reflexivity|]. split; [exact S1|]. core_eq.
Qed.

Lemma slot_done_core i v a anns s' d :
  byte_or_invalid v ->
  src (slot_done i (v, a, anns) s' d) = s'
  /\ exists az,
       core (slot_done i (v, a, anns) s' d)
       = core (set_datas_anchors az
                 (set_datas (datas d ++ filter ne_minus1 [v]) d)).
Proof.
  intros [[x V]|V]; subst v; (split; [reflexivity|]).
  - eexists. reflexivity.
  - exists (datas_anchors d). unfold slot_done, slot_put. cbn [fst snd].
    change (filter ne_minus1 [Int (-1)]) with (@nil pyobj).
    rewrite app_nil_r. reflexivity.
Qed.

(** The locals after the payload slots [idxs] read the bytes [bs]. *)
Definition slots_locals (idxs : list Z)
  (bs : list (pyobj * span * list annotation)) (l : Locals) : Locals :=
  fold_left (fun l ib => slot_locals (fst ib) (snd (fst (snd ib))) l)
    (combine idxs bs) l.

Lemma data_loop_run itv : forall idxs l d bs s',
  interval_ms d = itv ->
  next_bytes (List.length idxs) itv (src d) = Some (bs, s') ->
  exists d',
    for_each idxs data_body l d = Ret (slots_locals idxs bs l) d'
    /\ src d' = s'
    /\ exists az,
         core d'
         = core (set_datas_anchors az
                   (set_datas
                      (datas d
                       ++ filter ne_minus1 (map (fun b => fst (fst b)) bs))
                      d)).
Proof.
  induction idxs as [|i idxs IH]; intros l d bs s' Hi Hn.
  - cbn in Hn. inversion Hn; subst bs s'. exists d.
    split; [reflexivity|]. split; [reflexivity|].
    exists (datas_anchors d). cbn [map filter]. rewrite app_nil_r.
    reflexivity.
  - cbn [List.length] in Hn. rewrite next_bytes_S in Hn. subst itv.
    destruct (next_byte (interval_ms d) (src d))
      as [[[[v a] anns] s1]|] eqn:E; [|discriminate].
    destruct (next_bytes (List.length idxs) (interval_ms d) s1)
      as [[bs1 s2]|] eqn:E1; [|discriminate].
    inversion Hn; subst bs s'; clear Hn.
    rewrite for_each_cons, (data_body_run _ _ _ _ _ _ _ E).
    change (slot_put i (v, a, anns) (advanced s1 (snd a) anns d))
      with (slot_done i (v, a, anns) s1 d).
    destruct (slot_done_core i v a anns s1 d (next_byte_value _ _ _ _ _ _ E))
      as (S1 & az1 & K1).
    set (d1 := slot_done i (v, a, anns) s1 d) in *. clearbody d1.
    fields_in K1.
    destruct (IH (slot_locals i a l) d1 bs1 s2 Kiv) as (d' & R & S2 & az & K).
    { rewrite S1. exact E1. }
    exists d'. split; [exact R|]. split; [exact S2|].
    exists az. rewrite K. cbn [map filter fst]. unfold core. orun. carry.
    rewrite Kda, <- app_assoc. cbn [filter].
    destruct (ne_minus1 v); reflexivity.
Qed.

Lemma data_loop_stops itv : forall idxs l d,
  interval_ms d = itv ->
  next_bytes (List.length idxs) itv (src d) = None ->
  exists d', for_each idxs data_body l d = Eoi d'.
Proof.
  intros idxs l d Hi Hn.
  exact (data_loop_eoi itv (List.length idxs) idxs l d Hi eq_refl Hn).
Qed.

Lemma next_bytes_length n itv : forall s l s',
  next_bytes n itv s = Some (l, s') -> List.length l = n.
Proof.
  induction n as [|n IH]; intros s l s' E.
  - inversion E. reflexivity.
  - rewrite next_bytes_S in E.
    destruct (next_byte itv s) as [[[[v a] anns] s1]|]; [|discriminate].
    destruct (next_bytes n itv s1) as [[l1 s2]|] eqn:E1; [|discriminate].
    inversion E; subst. cbn. f_equal. eapply IH. exact E1.
Qed.

Lemma start_run l d :
  state d = START ->
  match next_bytes 4 (interval_ms d) (src d) with
  | Some (bs, s') =>
      exists l' d' az,
        decode_step l d = Ret l' d' /\ src d' = s'
        /\ core d'
           = core (set_state DATA
                     (set_datas_anchors az
                        (set_datas
                           (filter ne_minus1 (map (fun b => fst (fst b)) bs))
                           d)))
  | None => exists d', decode_step l d = Eoi d'
  end.
Proof.
  intros St. rewrite decode_step_unfold, St.
  set (d0 := set_datas_anchors [] (set_datas [] d)).
  change (interval_ms d) with (interval_ms d0).
  change (src d) with (src d0).
  destruct (next_bytes 4 (interval_ms d0) (src d0)) as [[bs s']|] eqn:E.
  2:{ destruct (data_loop_stops (interval_ms d0) (range 4) l d0 eq_refl E)
        as [d' R].
      exists d'. unfold bind. rewrite R. reflexivity. }
  destruct (data_loop_run (interval_ms d0) (range 4) l d0 bs s' eq_refl E)
    as (d4 & R & S4 & az & K).
  unfold bind at 1. rewrite R.
  pose proof (next_bytes_length _ _ _ _ _ E) as L.
  destruct bs as [|[[v0 a0] n0] [|[[v1 a1] n1] [|[[v2 a2] n2]
    [|[[v3 a3] n3] [|]]]]]; try discriminate.
  set (l4 := slots_locals (range 4) _ l).
  assert (Hs : d_label_start l4 = Some (fst a0)) by reflexivity.
  assert (He : d_label_end l4 = Some (snd a3)) by reflexivity.
  clearbody l4. unfold bind. rewrite Hs, He. cbn [local ret]. orun.
  fields_in K.
  eexists; eexists; exists az. split; [reflexivity|].
  split; [exact S4|]. core_eq. rewrite Kda, Kan. reflexivity.
Qed.

Lemma data_run l d :
  state d = DATA ->
  match next_byte (interval_ms d) (src d) with
  | Some (v, a, anns, s') =>
      exists l' d',
        decode_step l d = Ret l' d' /\ src d' = s'
        /\ core d'
           = core (set_state SUM
                     (set_checksum_invalid
                        match v with
                        | Bytes b => check_sum8 (datas d) =? from_bytes_big b
                        | Int _ => checksum_invalid d
                        end d))
  | None => exists d', decode_step l d = Eoi d'
  end.
Proof.
  intros St. rewrite decode_step_unfold, St.
  pose proof (read_byte_next d) as R.
  destruct (next_byte (interval_ms d) (src d)) as [[[[v a] anns] s']|].
  2:{ destruct R as [d' R]. exists d'. unfold bind. rewrite R.
      reflexivity. }
  destruct R as (d1 & R & S1 & K & V). fields K.
  unfold bind at 1. rewrite R.
  destruct V as [[x V]|V]; subst v.
  - cbn [ne_minus1 int_from_bytes pyobj_hex]. orun.
    destruct (check_sum8 (datas d1) =? from_bytes_big [x]) eqn:C; orun;
      (eexists; eexists; split; [reflexivity|]; split; [exact S1|]);
      rewrite Kda in C; rewrite C; core_eq.
  - change (ne_minus1 (Int (-1))) with false. orun.
    eexists; eexists. split; [reflexivity|]. split; [exact S1|]. core_eq.
Qed.

(** What the four steps from Idle read: the edges of the preamble, the
    start byte, the four payload bytes and the checksum byte. *)
Definition next_packet (itv : float) (s : source)
  : option (pyobj * list pyobj * pyobj * source) :=
  match preamble_edges s with
  | None => None
  | Some (_, _, _, s1) =>
      match next_byte itv s1 with
      | None => None
      | Some (sc, _, _, s2) =>
          match next_bytes 4 itv s2 with
          | None => None
          | Some (bs, s3) =>
              match next_byte itv s3 with
              | None => None
              | Some (ck, _, _, s4) =>
                  Some (sc, map (fun b => fst (fst b)) bs, ck, s4)
              end
          end
      end
  end.

(** The counters and the sampling interval. *)
Definition tallies (d : Decoder) :=
  (interval_ms d, total d, pass_num d, fail_num d).

Lemma core_tallies d d' :
  core d' = core d ->
  state d' = state d /\ tallies d' = tallies d
  /\ start_code d' = start_code d /\ datas d' = datas d
  /\ checksum_invalid d' = checksum_invalid d.
Proof.
  intros K. fields K. unfold tallies. carry. repeat split; assumption.
Qed.

Lemma tallies_interval d d' :
  tallies d' = tallies d -> interval_ms d' = interval_ms d.
Proof. unfold tallies. intros H. inversion H. reflexivity. Qed.

Lemma bind_run {A B} (m : M A) (k : A -> M B) d a d1 :
  m d = Ret a d1 -> bind m k d = k a d1.
Proof. intros H. unfold bind. rewrite H. reflexivity. Qed.

Lemma bind_eoi {A B} (m : M A) (k : A -> M B) d d1 :
  m d = Eoi d1 -> bind m k d = Eoi d1.
Proof. intros H. unfold bind. rewrite H. reflexivity. Qed.

(** X11.  The framing of a packet is positional.  From Idle, four
    steps read one preamble pulse pair and then exactly six bytes,
    whether or not the preamble or the start byte is valid, and stop
    in state SUM (they do not return when the input ends before).  The
    start byte is kept as read, the payload list holds the payload
    bytes that decoded, the checksum flag compares their sum with the
    checksum byte, or keeps its previous value when that byte did not
    decode, and the counters are not touched. *)
Theorem packet_framing l d :
  state d = IDLE ->
  match next_packet (interval_ms d) (src d) with
  | Some (sc, vs, ck, s') =>
      exists l' d',
        decode_loop 4 l d = Ret l' d'
        /\ state d' = SUM /\ src d' = s'
        /\ start_code d' = sc
        /\ List.length vs = 4%nat
        /\ datas d' = filter ne_minus1 vs
        /\ checksum_invalid d' =
           match ck with
           | Bytes b => check_sum8 (filter ne_minus1 vs) =? from_bytes_big b
           | Int _ => checksum_invalid d
           end
        /\ (total d', pass_num d', fail_num d')
           = (total d, pass_num d, fail_num d)
  | None => exists d', decode_loop 4 l d = Eoi d'
  end.
Proof.
  intros St. unfold next_packet. cbn [decode_loop].
  pose proof (idle_run l d St) as R1.
  destruct (preamble_edges (src d)) as [[[[e0 e1] e2] s1]|].
  2:{ destruct R1 as [d' R]. exists d'. apply bind_eoi. exact R. }
  destruct R1 as (l1 & d1 & R1 & S1 & K1).
  rewrite (bind_run _ _ _ _ _ R1). cbv beta. clear R1.
  apply core_tallies in K1. cbn [state start_code datas checksum_invalid
    set_state] in K1. unfold tallies at 2 in K1.
  cbn [interval_ms total pass_num fail_num set_state] in K1.
  fold (tallies d) in K1.
  destruct K1 as (St1 & T1 & _ & _ & C1).
  pose proof (preamble_run l1 d1 St1) as R2.
  rewrite (tallies_interval _ _ T1), S1 in R2.
  destruct (next_byte (interval_ms d) s1) as [[[[sc a1] n1] s2]|].
  2:{ destruct R2 as [d' R]. exists d'. apply bind_eoi. exact R. }
  destruct R2 as (d2 & R2 & S2 & K2).
  rewrite (bind_run _ _ _ _ _ R2). cbv beta. clear R2.
  apply core_tallies in K2. cbn [state start_code datas checksum_invalid
    set_state set_start_code] in K2. unfold tallies at 2 in K2.
  cbn [interval_ms total pass_num fail_num set_state set_start_code] in K2.
  fold (tallies d1) in K2.
  destruct K2 as (St2 & T2 & Sc2 & _ & C2).
  rewrite T1 in T2. rewrite C1 in C2. clear St1 T1 C1 S1 d1.
  pose proof (start_run l1 d2 St2) as R3.
  rewrite (tallies_interval _ _ T2), S2 in R3.
  destruct (next_bytes 4 (interval_ms d) s2) as [[bs s3]|] eqn:E3.
  2:{ destruct R3 as [d' R]. exists d'. apply bind_eoi. exact R. }
  destruct R3 as (l3 & d3 & az & R3 & S3 & K3).
  rewrite (bind_run _ _ _ _ _ R3). cbv beta. clear R3.
  apply core_tallies in K3. cbn [state start_code datas checksum_invalid
    set_state set_datas set_datas_anchors] in K3. unfold tallies at 2 in K3.
  cbn [interval_ms total pass_num fail_num set_state set_datas
    set_datas_anchors] in K3.
  fold (tallies d2) in K3.
  destruct K3 as (St3 & T3 & Sc3 & D3 & C3).
  rewrite T2 in T3. rewrite C2 in C3. rewrite Sc2 in Sc3.
  clear St2 T2 C2 Sc2 S2 d2.
  pose proof (data_run l3 d3 St3) as R4.
  rewrite (tallies_interval _ _ T3), S3 in R4.
  destruct (next_byte (interval_ms d) s3) as [[[[ck a4] n4] s4]|].
  2:{ destruct R4 as [d' R]. exists d'. apply bind_eoi. exact R. }
  destruct R4 as (l4 & d4 & R4 & S4 & K4).
  rewrite (bind_run _ _ _ _ _ R4). cbv beta. clear R4.
  apply core_tallies in K4. cbn [state start_code datas checksum_invalid
    set_state set_checksum_invalid] in K4. unfold tallies at 2 in K4.
  cbn [interval_ms total pass_num fail_num set_state set_checksum_invalid]
    in K4.
  fold (tallies d3) in K4.
  destruct K4 as (St4 & T4 & Sc4 & D4 & C4).
  rewrite T3 in T4. rewrite Sc3 in Sc4. rewrite D3 in D4.
  rewrite D3, C3 in C4.
  exists l4, d4. split; [reflexivity|]. split; [exact St4|].
  split; [exact S4|]. split; [exact Sc4|].
  split; [rewrite length_map; exact (next_bytes_length _ _ _ _ _ E3)|].
  split; [exact D4|]. split; [exact C4|].
  unfold tallies in T4. inversion T4. reflexivity.
Qed.

Lemma packet_framing_good_packet :
  exists l' d',
    decode_loop 4 no_locals (idle_on good_packet) = Ret l' d'
    /\ state d' = SUM
    /\ start_code d' = Bytes [76]
    /\ datas d' = [Bytes [1]; Bytes [2]; Bytes [3]; Bytes [4]]
    /\ checksum_invalid d' = true.
Proof.
  pose proof (packet_framing no_locals (idle_on good_packet) eq_refl) as H.
  assert (E : next_packet (interval_ms (idle_on good_packet))
                (src (idle_on good_packet))
              = Some (Bytes [76], [Bytes [1]; Bytes [2]; Bytes [3]; Bytes [4]],
                      Bytes [10],
                      {| pos := 1887; old := Some false;
                         rest := repeat false 15 ++ [true; true] |}))
    by (vm_compute; reflexivity).
  rewrite E in H.
  destruct H as (l' & d' & R & St & _ & Sc & _ & D & C & _).
  exists l', d'. repeat split; assumption.
Defined.

(** ** The vocabulary of a session *)

(** What an annotation of each class can say.  [stat] tells whether
    statistics are on. *)
Definition spoken (stat : bool) (a : annotation) : Prop :=
  match a_cls a with
  | Ann.BIT =>
      a_text a = [Str "1"] \/ a_text a = [Str "0"]
      \/ a_text a = [Str "Invalid"; Str "I"]
  | Ann.PREAMBLE => a_text a = [Str "Preamble"; Str "P"]
  | Ann.START =>
      a_text a = [Str "Start (0x4C)"; Str "Start"; Str "S"]
      \/ a_text a = [Str "Invalid"; Str "I"]
  | Ann.DATA =>
      a_text a = [Str "Data[0-3]"; Str "D"]
      \/ (exists x, a_text a = [Str ("CHECKSUM 0x" ++ hex_upper [x])])
      \/ a_text a = [Str "CHECKSUM Invalid"; Str "Invalid"; Str "I"]
  | Ann.FUNCTION | Ann.ARGS =>
      exists x, a_text a = [Str ("0x" ++ hex_upper [x])]
  | Ann.DEBUG =>
      stat = true
      /\ exists r f t rate,
           a_text a = [FmtStat r f t rate]
           /\ (r = "PASS"%string \/ r = "FAIL"%string)
  | Ann.STOP | Ann.ID | Ann.SUM | Ann.INVALID => False
  end.

Section Vocabulary.

Variable stat : bool.

Definition voiced (d : Decoder) : Prop :=
  is_statistic d = stat /\ Forall (spoken stat) (out d).

Lemma voiced_same d d' :
  is_statistic d' = is_statistic d -> out d' = out d ->
  voiced d -> voiced d'.
Proof. intros Hs Ho [H1 H2]. split; [congruence|]. rewrite Ho. exact H2. Qed.

Lemma voiced_put d d' a :
  is_statistic d' = is_statistic d -> out d' = out d ++ [a] ->
  spoken stat a -> voiced d -> voiced d'.
Proof.
  intros Hs Ho Ha [H1 H2]. split; [congruence|]. rewrite Ho.
  apply Forall_app. split; [exact H2|]. constructor; [exact Ha|constructor].
Qed.

(** [m] keeps the vocabulary, however it ends, and returns in [P]. *)
Definition emits {A} (m : M A) (P : A -> Prop) : Prop :=
  forall d, voiced d ->
    outcomes m (fun a d' => voiced d' /\ P a) voiced (fun _ => voiced) d.

Lemma emits_bind {A B} (m : M A) (k : A -> M B) P Q :
  emits m P -> (forall a, P a -> emits (k a) Q) -> emits (bind m k) Q.
Proof.
  intros Hm Hk d J. apply outcomes_bind.
  eapply outcomes_mono; [apply Hm; exact J| | |]; cbv beta; auto.
  intros a d' [J' Pa]. apply Hk; assumption.
Qed.

Lemma emits_bind_ret {A B} (a : A) (k : A -> M B) Q :
  emits (k a) Q -> emits (bind (ret a) k) Q.
Proof. intros H d J. exact (H d J). Qed.

Lemma emits_weaken {A} (m : M A) (P Q : A -> Prop) :
  emits m P -> (forall a, P a -> Q a) -> emits m Q.
Proof.
  intros Hm H d J. eapply outcomes_mono; [apply Hm; exact J| | |];
    cbv beta; auto.
  intros a d' [J' Pa]. split; auto.
Qed.

Lemma emits_ret {A} (a : A) (P : A -> Prop) : P a -> emits (ret a) P.
Proof. intros H d J. split; assumption. Qed.

Lemma emits_ret_true {A} (a : A) : emits (ret a) (fun _ => True).
Proof. apply emits_ret. exact I. Qed.

Lemma emits_gets {A} (f : Decoder -> A) : emits (gets f) (fun _ => True).
Proof. intros d J. split; [exact J|exact I]. Qed.

Lemma emits_statistic : emits (gets is_statistic) (fun st => st = stat).
Proof. intros d J. split; [exact J|apply J]. Qed.

Lemma emits_lift {A} (r : exn + A) : emits (lift r) (fun a => r = inr a).
Proof. intros d J. destruct r; [exact J|split; [exact J|reflexivity]]. Qed.

Lemma emits_local {A} (x : option A) : emits (local x) (fun _ => True).
Proof. intros d J. destruct x; [split; [exact J|exact I]|exact J]. Qed.

Lemma emits_raise {A} e (P : A -> Prop) : emits (raise e) P.
Proof. intros d J. exact J. Qed.

Lemma emits_modify f :
  (forall d, is_statistic (f d) = is_statistic d /\ out (f d) = out d) ->
  emits (modify f) (fun _ => True).
Proof.
  intros H d J. split; [|exact I]. destruct (H d) as [H1 H2].
  eapply voiced_same; eassumption.
Qed.

Lemma emits_wait c : emits (wait c) (fun _ => True).
Proof.
  intros d J. unfold outcomes, wait.
  destruct (source_wait c (src d)) as [[n s]|]; [|exact J].
  split; [|exact I]. eapply voiced_same; [| |exact J]; reflexivity.
Qed.

Lemma emits_put_label a data :
  spoken stat {| a_ss := fst a; a_es := snd a; a_cls := fst data;
                 a_text := snd data |} ->
  emits (put_label a data) (fun _ => True).
Proof.
  intros H d J. split; [|exact I].
  eapply voiced_put; [| |exact H|exact J]; reflexivity.
Qed.

Lemma emits_put_debug data : emits (put_debug data) (fun _ => True).
Proof. intros d J. split; [exact J|exact I]. Qed.

Lemma emits_for_each {S} (body : Z -> S -> M S) :
  (forall i s, emits (body i s) (fun _ => True)) ->
  forall idxs s, emits (for_each idxs body s) (fun _ => True).
Proof.
  intros H idxs. induction idxs as [|i idxs IH]; intros s.
  - apply emits_ret. exact I.
  - cbn [for_each]. eapply emits_bind; [apply H|]. intros s' _. apply IH.
Qed.

Ltac emits_step :=
  first
    [ apply emits_ret_true
    | apply emits_bind_ret
    | apply emits_gets | apply emits_local | apply emits_wait
    | apply emits_put_debug
    | apply emits_modify; intros ?; split; reflexivity
    | eapply emits_bind; [|intros ? ?]
    | eapply emits_weaken; [apply emits_lift|intros ? ?; exact I]
    | match goal with
      | |- emits (let '(_, _) := ?x in _) _ => destruct x
      end ].

Lemma emits_read_logic_level : emits read_logic_level (fun _ => True).
Proof.
  unfold read_logic_level, calc_pluse_time. repeat emits_step.
  repeat match goal with
         | |- emits (if ?c then _ else _) _ => destruct c
         end; apply emits_ret; exact I.
Qed.

Lemma emits_is_preamble :
  emits is_preamble (fun r => truthy (fst r) = true).
Proof.
  unfold is_preamble, calc_pluse_time. repeat emits_step.
  match goal with
  | |- emits (if ?c then _ else _) _ => destruct c
  end; apply emits_ret; reflexivity.
Qed.

Lemma emits_read_byte_body i l : emits (read_byte_body i l) (fun _ => True).
Proof.
  unfold read_byte_body. eapply emits_bind; [apply emits_read_logic_level|].
  intros [v a] _.
  destruct (v =? 1); [|destruct (v =? 0)];
    (eapply emits_bind; [apply emits_put_label|intros; apply emits_ret; exact I]);
    cbn; auto.
Qed.

Lemma emits_read_byte :
  emits read_byte (fun r => byte_or_invalid (fst r)).
Proof.
  assert (H : emits read_byte (fun _ => True)).
  { unfold read_byte. eapply emits_bind.
    - apply emits_for_each. intros i s. apply emits_read_byte_body.
    - intros l _. repeat emits_step.
      destruct (invalid l); repeat emits_step. }
  intros d J. specialize (H d J). pose proof (read_byte_reads d) as R.
  unfold reads, outcomes in *. destruct (read_byte d) as [r d'|d'|e d'].
  - split; [apply H|apply R].
  - exact H.
  - exact H.
Qed.

Lemma emits_is_start : emits is_start (fun _ => True).
Proof.
  unfold is_start. eapply emits_bind; [apply emits_read_byte|].
  intros [v a] V. cbn [fst] in V.
  eapply emits_bind; [apply emits_modify; intros ?; split; reflexivity|].
  intros _ _. destruct V as [[x V]|V]; subst v.
  - cbn [ne_minus1 int_from_bytes pyobj_hex lift].
    apply emits_bind_ret.
    change (from_bytes_big [x]) with (0 * 256 + x).
    destruct (Z.eqb_spec (0 * 256 + x) START_CODE) as [C|C].
    + assert (Hx : x = START_CODE) by lia. rewrite Hx.
      apply emits_bind_ret.
      eapply emits_bind; [apply emits_put_label|intros; apply emits_ret; exact I].
      left. reflexivity.
    + eapply emits_bind; [apply emits_put_label|intros; apply emits_ret; exact I].
      right. reflexivity.
  - change (ne_minus1 (Int (-1))) with false.
    eapply emits_bind; [apply emits_put_label|intros; apply emits_ret; exact I].
    right. reflexivity.
Qed.

Lemma emits_data_body i l : emits (data_body i l) (fun _ => True).
Proof.
  unfold data_body. eapply emits_bind; [apply emits_read_byte|].
  intros [v a] V. cbn [fst] in V.
  eapply emits_bind; [|intros; apply emits_ret; exact I].
  destruct V as [[x V]|V]; subst v.
  - cbn [ne_minus1 pyobj_hex lift]. repeat emits_step.
    destruct (i =? 0); apply emits_put_label; exists x; reflexivity.
  - change (ne_minus1 (Int (-1))) with false. apply emits_ret. exact I.
Qed.

Lemma emits_decode_step l : emits (decode_step l) (fun _ => True).
Proof.
  unfold decode_step. eapply emits_bind; [apply emits_gets|].
  intros st _. destruct st.
  - eapply emits_bind; [apply emits_is_preamble|]. intros [v a] T.
    cbn [fst] in T. rewrite T.
    eapply emits_bind; [|intros; repeat emits_step].
    apply emits_put_label. reflexivity.
  - eapply emits_bind; [apply emits_is_start|]. intros; repeat emits_step.
  - repeat emits_step.
    + apply emits_for_each. intros i s. apply emits_data_body.
    + apply emits_put_label. left. reflexivity.
  - eapply emits_bind; [apply emits_read_byte|].
    intros [v a] V. cbn [fst] in V.
    eapply emits_bind; [|intros; repeat emits_step].
    destruct V as [[x V]|V]; subst v.
    + cbn [ne_minus1 int_from_bytes pyobj_hex lift]. repeat emits_step.
      match goal with
      | |- emits (if ?c then _ else _) _ => destruct c
      end.
      * repeat emits_step. apply emits_put_label.
        right. left. exists x. reflexivity.
      * apply emits_put_label. right. right. reflexivity.
    + change (ne_minus1 (Int (-1))) with false. apply emits_ret. exact I.
  - do 5 (eapply emits_bind; [solve [emits_step]|intros ? ?]).
    eapply emits_bind; [apply emits_statistic|]. intros st Hst. rewrite Hst.
    apply (emits_bind _ _ (fun _ => True)); [|intros; repeat emits_step].
    destruct stat eqn:Hstat; [|apply emits_ret_true].
    do 6 (eapply emits_bind; [solve [emits_step]|intros ? ?]).
    eapply emits_bind.
    { instantiate (1 := fun _ => True).
      repeat match goal with
             | |- emits (if ?c then _ else _) _ => destruct c
             end; repeat emits_step. }
    intros c _.
    eapply emits_bind.
    { instantiate (1 := fun r => r = "PASS"%string \/ r = "FAIL"%string).
      destruct c;
        (eapply emits_bind; [apply emits_gets|]; intros ? ?;
         eapply emits_bind;
           [apply emits_modify; intros ?; split; reflexivity|];
         intros ? ?; apply emits_ret; auto). }
    intros r Hr.
    do 2 (eapply emits_bind; [solve [emits_step]|intros ? ?]).
    eapply emits_bind.
    { instantiate (1 := fun _ => True).
      match goal with
      | |- emits (if ?c then _ else _) _ => destruct c
      end; [apply emits_raise|apply emits_ret; exact I]. }
    intros rate _.
    do 3 (eapply emits_bind; [solve [emits_step]|intros ? ?]).
    apply emits_put_label. cbn. split; [exact Hstat|].
    eexists; eexists; eexists; eexists. split; [reflexivity|exact Hr].
Qed.

Lemma emits_decode_loop n : forall l, emits (decode_loop n l) (fun _ => True).
Proof.
  induction n as [|n IH]; intros l.
  - apply emits_ret. exact I.
  - cbn [decode_loop]. eapply emits_bind; [apply emits_decode_step|].
    intros l' _. apply IH.
Qed.

End Vocabulary.

Lemma decode_voiced d :
  out d = [] ->
  Forall (spoken (negb (target_data d =? 0))) (out (outcome_state (decode d))).
Proof.
  intros O. unfold decode, decode_init, bind at 1, bind at 1, gets at 1.
  destruct (samplerate d) as [r|]; [|cbn; rewrite O; constructor].
  destruct (negb (truthy r)); [cbn; rewrite O; constructor|].
  orun.
  set (d1 := set_is_statistic _ _).
  assert (J : voiced (negb (target_data d =? 0)) d1).
  { split; [|subst d1; orun; rewrite O; constructor].
    subst d1. orun. destruct (target_data d =? 0); reflexivity. }
  clearbody d1.
  pose proof (emits_decode_loop _ (S (List.length (rest (src d)))) no_locals
                d1 J) as H.
  unfold outcomes in H.
  destruct (decode_loop _ _ d1) as [l2 d2|d2|e d2]; cbn [outcome_state];
    apply H.
Qed.

(** X12.  The vocabulary of a session.  Whatever the input, every
    annotation put is a Bit ('1', '0' or 'Invalid'), a Preamble (always
    'Preamble'), a Start ('Start (0x4C)' or 'Invalid'), a Data
    ('Data[0-3]', 'CHECKSUM 0xNN' or 'CHECKSUM Invalid'), a Function or
    an Args ('0xNN'), or a Debug, which is always a PASS or FAIL
    summary and is put only when the target is not 0.  No annotation of
    class Stop, Id, Sum or Invalid is ever put, and no pulse duration
    is ever logged. *)
Theorem session_vocabulary rate target samples :
  Forall (spoken (negb (target =? 0))) (session_output rate target samples).
Proof.
  exact (decode_voiced (new_decoder rate target samples) eq_refl).
Qed.

(** ** Input without a preamble *)

Lemma idle_stops_quiet l d :
  state d = IDLE -> preamble_edges (src d) = None ->
  exists d', decode_step l d = Eoi d' /\ out d' = out d
             /\ core d' = core d.
Proof.
  intros St. rewrite decode_step_unfold, St.
  unfold preamble_edges, is_preamble, bind, wait, gets, modify,
    calc_pluse_time, put_debug, ret.
  destruct (source_wait Falling (src d)) as [[a src1]|]; cbn;
    [|intros _; eexists; repeat split; reflexivity].
  destruct (source_wait Rising src1) as [[b src2]|]; cbn;
    [|intros _; eexists; repeat split; reflexivity].
  destruct (source_wait Falling src2) as [[c src3]|]; cbn;
    [discriminate|intros _; eexists; repeat split; reflexivity].
Qed.

Lemma decode_without_preamble d :
  state d = IDLE -> out d = [] ->
  preamble_edges (src d) = None ->
  out (outcome_state (decode d)) = []
  /\ total (outcome_state (decode d)) = total d
  /\ forall r, samplerate d = Some r -> r <> 0 ->
       exists d', decode d = Eoi d' /\ state d' = IDLE.
Proof.
  intros St O E.
  destruct (samplerate d) as [r|] eqn:Hr.
  2:{ rewrite (proj1 (decode_without_samplerate d) Hr). cbn.
      repeat split; [exact O|discriminate]. }
  destruct (Z.eq_dec r 0) as [R0|R0].
  { subst r. rewrite (proj2 (decode_without_samplerate d) Hr). cbn.
    split; [exact O|]. split; [reflexivity|].
    intros r H. inversion H. contradiction. }
  set (d1 := set_is_statistic (negb (target_data d =? 0))
               (set_interval_ms (float_of_int 1000 / float_of_int r)%float d)).
  destruct (idle_stops_quiet no_locals d1 St E) as (d' & R & O' & K).
  assert (D : decode d = Eoi d').
  { unfold decode, bind at 1. rewrite (decode_init_statistic d r Hr R0).
    fold d1. unfold bind at 1, gets. cbn [decode_loop].
    apply bind_eoi. exact R. }
  rewrite D. cbn [outcome_state].
  apply core_tallies in K. destruct K as (St' & T' & _).
  split; [rewrite O'; exact O|]. split.
  - unfold tallies in T'. inversion T'. reflexivity.
  - intros _ _ _. exists d'. split; [reflexivity|]. rewrite St'. exact St.
Qed.

(** X13.  Input without a preamble.  When the samples do not hold the
    three edges of a preamble pulse pair (falling, rising, falling; an
    empty or constant input, or one that ends inside the first pulse
    pair), the session puts no annotation and counts no packet; with a
    sample rate it ends with the input, in state IDLE. *)
Theorem no_preamble_no_output rate target samples :
  preamble_edges {| pos := 0; old := None; rest := samples |} = None ->
  session_output rate target samples = []
  /\ total (outcome_state (decode (new_decoder rate target samples))) = 0
  /\ forall r, rate = Some r -> r <> 0 ->
       exists d',
         decode (new_decoder rate target samples) = Eoi d'
         /\ state d' = IDLE.
Proof.
  exact (decode_without_preamble (new_decoder rate target samples)
           eq_refl eq_refl).
Qed.

Lemma empty_input_no_output :
  session_output (Some 25000) 0 [] = []
  /\ total (outcome_state (decode (new_decoder (Some 25000) 0 []))) = 0
  /\ forall r, Some 25000 = Some r -> r <> 0 ->
       exists d',
         decode (new_decoder (Some 25000) 0 []) = Eoi d' /\ state d' = IDLE.
Proof.
  apply (no_preamble_no_output (Some 25000) 0 []). reflexivity.
Defined.

(** ** The checksum step on a decoded payload *)

(** The sum of byte values. *)
Definition byte_sum (xs : list Z) : Z := fold_right Z.add 0 xs.

(** Two upper-case hexadecimal digits. *)
Definition hex_char (n : Z) : ascii :=
  if n <? 10 then ascii_of_nat (48 + Z.to_nat n)
  else ascii_of_nat (55 + Z.to_nat n).

Definition hex_byte (x : Z) : string :=
  String (hex_char (x / 16)) (String (hex_char (x mod 16)) EmptyString).

Lemma hex_upper_byte x : 0 <= x < 256 -> hex_upper [x] = hex_byte x.
Proof.
  intros H. apply byte_range in H.
  assert (A : forallb (fun x => String.eqb (hex_upper [x]) (hex_byte x))
                (map Z.of_nat (seq 0 256)) = true)
    by (vm_compute; reflexivity).
  rewrite forallb_forall in A. apply String.eqb_eq, A, H.
Qed.

Lemma payload_sum_bytes xs :
  payload_sum (map (fun x => Bytes [x]) xs) = byte_sum xs.
Proof.
  unfold payload_sum, byte_sum.
  induction xs as [|x xs IH]; [reflexivity|].
  cbn [map fold_right payload_value]. rewrite IH.
  unfold from_bytes_big. cbn [fold_left]. lia.
Qed.

Lemma next_byte_range itv s x a anns s' :
  next_byte itv s = Some (Bytes [x], a, anns, s') -> 0 <= x < 256.
Proof.
  unfold next_byte.
  destruct (next_symbols 8 itv s) as [[[|y syms] s2]|] eqn:E;
    try discriminate.
  unfold byte_value.
  destruct (all_bits (map fst (y :: syms))) eqn:B; [|discriminate].
  intros H. inversion H; subst.
  pose proof (next_symbols_length _ _ _ _ _ E) as L.
  pose proof (pack_msb_bound (map fst (y :: syms)) 0 B ltac:(lia)) as P.
  rewrite length_map, L in P. change (2 ^ Z.of_nat 8) with 256 in P.
  unfold pack_msb. cbn [map] in P. lia.
Qed.

(** C5.  In state DATA with a payload list of decoded bytes, the
    decoder reads one byte.  When it decoded to the value [x], the
    decoder compares the sum of the payload bytes modulo 256 with [x],
    stores the result of the comparison in [checksum_invalid], and
    labels the byte 'CHECKSUM 0xNN', with NN the two hexadecimal digits
    of [x], when they are equal and 'CHECKSUM Invalid' when not.  When
    the byte is -1 nothing is compared: [checksum_invalid] keeps its
    value and there is no label.  Either way the state becomes SUM. *)
Theorem checksum_step l d xs :
  state d = DATA ->
  datas d = map (fun x => Bytes [x]) xs ->
  match next_byte (interval_ms d) (src d) with
  | Some (v, a, anns, s') =>
      exists l' d',
        decode_step l d = Ret l' d'
        /\ state d' = SUM /\ src d' = s' /\ anchor l' = Some a
        /\ datas d' = datas d
        /\ match v with
           | Bytes b =>
               exists x,
                 b = [x] /\ 0 <= x < 256
                 /\ checksum_invalid d' = (byte_sum xs mod 256 =? x)
                 /\ out d' =
                    out d ++ anns
                    ++ [{| a_ss := fst a; a_es := snd a; a_cls := Ann.DATA;
                           a_text :=
                             if byte_sum xs mod 256 =? x
                             then [Str ("CHECKSUM 0x" ++ hex_byte x)]
                             else [Str "CHECKSUM Invalid"; Str "Invalid";
                                   Str "I"] |}]
           | Int n =>
               n = -1
               /\ checksum_invalid d' = checksum_invalid d
               /\ out d' = out d ++ anns
           end
  | None => exists d', decode_step l d = Eoi d'
  end.
Proof.
  intros St Hd. pose proof (data_to_checksum l d St) as H.
  destruct (next_byte (interval_ms d) (src d)) as [[[[v a] anns] s']|] eqn:E;
    [|exact H].
  destruct H as (l' & d' & R & S1 & S2 & A & D & C).
  exists l', d'. split; [exact R|]. split; [exact S1|]. split; [exact S2|].
  split; [exact A|]. split; [exact D|].
  destruct (next_byte_value _ _ _ _ _ _ E) as [[x V]|V]; subst v.
  - pose proof (next_byte_range _ _ _ _ _ _ E) as Rx.
    destruct C as [C O]. exists x. split; [reflexivity|]. split; [exact Rx|].
    unfold checksum_annotation in O.
    rewrite Hd, payload_sum_bytes in C, O.
    assert (F : from_bytes_big [x] = x)
      by (unfold from_bytes_big; cbn [fold_left]; lia).
    rewrite F in C, O. rewrite (hex_upper_byte x Rx) in O.
    split; [exact C|exact O].
  - split; [reflexivity|]. exact C.
Qed.

(** Start 0x4C, payload 01 02 03 04, checksum byte 0x0B. *)
Definition bad_checksum_packet : list bool :=
  packet_wave good_preamble (map byte_wave [76; 1; 2; 3; 4; 11]).

(** C5 at the payload 01 02 03 04, whose sum is 0x0A: the checksum
    byte 0x0B is labelled 'CHECKSUM Invalid' and clears the flag, the
    checksum byte 0x0A is labelled 'CHECKSUM 0x0A' and sets it. *)
Lemma checksum_step_bad_and_good :
  (exists l' d',
     decode_step no_locals (after_steps 3 bad_checksum_packet) = Ret l' d'
     /\ state d' = SUM
     /\ checksum_invalid d' = false
     /\ map (fun a => (Ann.index (a_cls a), a_text a)) (skipn 55 (out d'))
        = [(3, [Str "CHECKSUM Invalid"; Str "Invalid"; Str "I"])])
  /\ (exists l' d',
        decode_step no_locals (after_steps 3 good_packet) = Ret l' d'
        /\ state d' = SUM
        /\ checksum_invalid d' = true
        /\ map (fun a => (Ann.index (a_cls a), a_text a)) (skipn 55 (out d'))
           = [(3, [Str "CHECKSUM 0x0A"])]).
Proof.
  split.
  - pose proof (checksum_step no_locals (after_steps 3 bad_checksum_packet)
                  [1; 2; 3; 4]
                  ltac:(vm_compute; reflexivity)
                  ltac:(vm_compute; reflexivity)) as H.
    destruct (next_byte _ _) as [[[[v a] anns] s']|] eqn:E;
      [|vm_compute in E; discriminate].
    destruct H as (l' & d' & R & St & _ & _ & _ & Hv).
    exists l', d'. split; [exact R|]. split; [exact St|].
    vm_compute in E. inversion E; subst; clear E.
    destruct Hv as (x & Hx & _ & Hc & Ho). inversion Hx; subst x.
    split; [rewrite Hc; reflexivity|].
    rewrite Ho. vm_compute. reflexivity.
  - pose proof (checksum_step no_locals (after_steps 3 good_packet)
                  [1; 2; 3; 4]
                  ltac:(vm_compute; reflexivity)
                  ltac:(vm_compute; reflexivity)) as H.
    destruct (next_byte _ _) as [[[[v a] anns] s']|] eqn:E;
      [|vm_compute in E; discriminate].
    destruct H as (l' & d' & R & St & _ & _ & _ & Hv).
    exists l', d'. split; [exact R|]. split; [exact St|].
    vm_compute in E. inversion E; subst; clear E.
    destruct Hv as (x & Hx & _ & Hc & Ho). inversion Hx; subst x.
    split; [rewrite Hc; reflexivity|].
    rewrite Ho. vm_compute. reflexivity.
Defined.

(** ** Symbols as a session meets them

    Every read that precedes a symbol ([is_preamble], the symbol
    before) ends on a falling edge: the first low sample of the
    symbol's low pulse has been returned already, and the source stands
    on the sample after it. *)







